(** * warp-pipe: the Axon worker (axon.go) and its configuration

    A shallow embedding of [Axon.Run], [Axon.Verify], [Axon.Shutdown] and the
    [process*] methods of axon.go, of [AxonConfig] and
    [NewAxonConfigFromEnv], together with the properties the design
    document states about them.

    Go values are modelled as follows.
    - [string] is [String.string]; [fmt.Sprintf] with [%s] verbs is string
      concatenation, [strings.Join] is [String.concat].
    - an [error] is its message; [fmt.Errorf("...: %w", err)] appends the
      message of the wrapped error.  A function returning [(T, error)]
      returns a pair [T * option Error], as Go callers may look at both.
    - [map[int]string] is [gmap Z string]; a slice is a [list], and an
      index expression out of range panics.
    - effects (log entries, statements handed to the databases, channel
      operations) are recorded in an explicit trace carried by the state. *)

From Stdlib Require Import ZArith Ascii String List Lia.
From Stdlib Require DecimalString DecimalZ.
From stdpp Require Import base option list gmap strings fin_maps.

Local Open Scope Z_scope.

(** ** Go runtime values *)

Definition Error := string.

(** [fmt.Errorf(msg + ": %w", err)] *)
Definition wrap (msg : string) (err : Error) : Error := msg +:+ ": " +:+ err.

(** The double quote character, as the raw string literals of axon.go
    contain it. *)
Definition dq : string := String (Ascii.ascii_of_nat 34) EmptyString.

(** [fmt.Sprintf(`"%s"."%s"`, a, b)] *)
Definition quoted2 (a b : string) : string :=
  dq +:+ a +:+ dq +:+ "." +:+ dq +:+ b +:+ dq.

(** [fmt.Sprintf(`"%s"."%s"."%s"`, a, b, c)] *)
Definition quoted3 (a b c : string) : string :=
  dq +:+ a +:+ dq +:+ "." +:+ dq +:+ b +:+ dq +:+ "." +:+ dq +:+ c +:+ dq.

(** What a Go function call ends in. *)
Inductive outcome : Type :=
| Returns (err : option Error)
| Panics.

(** ** Package db: the table descriptor *)

Module db.

(** Modelled from the spec: the table descriptor [db.Table], whose
    declaration is not among the sources.  axon.go reads [Schema], [Name]
    and [PKeyFields]; it takes [len(table.PKeyFields)] and ranges over
    [position, column], storing at index [position-1], so [PKeyFields] is
    a Go map from the position of a column inside the primary key to the
    column name ("positionally indexed" in the design document). *)
Record Table : Type := {
  Name : string;
  Schema : string;
  PKeyFields : gmap Z string
}.

(** The positions of a primary key of [n] columns are [1..n]. *)
Definition positional (m : gmap Z string) : Prop :=
  ∀ p : Z, is_Some (m !! p) ↔ 1 ≤ p ≤ Z.of_nat (size m).

(** The descriptor of a key given as the ordered list of its columns. *)
Fixpoint pkey_from (p : Z) (cols : list string) : gmap Z string :=
  match cols with
  | [] => ∅
  | c :: cols => <[p := c]> (pkey_from (p + 1) cols)
  end.

Definition pkey_of_list (cols : list string) : gmap Z string :=
  pkey_from 1 cols.

End db.

(** ** Axon.Verify *)

Module Verifier.

Import db.

(** The observable actions of [Verify]. *)
Inductive event : Type :=
| LogInfo (table : string) (msg : string)
| QuerySource (sql : string)
| QueryTarget (sql : string).

(** Everything [Verify] obtains from outside: the two connections, the
    preparation of both databases, the list of tables and the answer of
    each database to a checksum query ([QueryRow(sql).Scan(&checksum)]). *)
Record Env : Type := {
  connect_source : option Error;
  prepare_source : option Error;
  connect_target : option Error;
  prepare_target : option Error;
  GenerateTablesList :
    list string → list string → list string → list Table * option Error;
  source_scan : string → string * option Error;
  target_scan : string → string * option Error
}.

(** One iteration of
    [for position, column := range table.PKeyFields {
       pkColumns[position-1] = fmt.Sprintf(...) }]:
    [None] is the index-out-of-range panic. *)
Definition store_pkColumn (table : Table)
    (pkColumns : option (list string)) (entry : Z * string)
  : option (list string) :=
  match pkColumns with
  | None => None
  | Some arr =>
      let position := entry.1 in
      let column := entry.2 in
      if decide (0 ≤ position - 1 < Z.of_nat (length arr))
      then Some (<[Z.to_nat (position - 1) :=
                    quoted3 (Schema table) (Name table) column]> arr)
      else None
  end.

(** The loop over the entries of the map in the order [entries]; Go
    leaves the iteration order of a map unspecified. *)
Definition fill_pkColumns (table : Table) (entries : list (Z * string))
  : option (list string) :=
  fold_left (store_pkColumn table) entries
    (Some (replicate (size (PKeyFields table)) EmptyString)).

Definition pkColumns (table : Table) : option (list string) :=
  fill_pkColumns table (map_to_list (PKeyFields table)).

Definition orderByClause (pkColumns : list string) : string :=
  "ORDER BY " +:+ String.concat "," pkColumns.

(** The checksum query of a table. *)
Definition checksum_sql (table : Table) (pkColumns : list string) : string :=
  "SELECT pg_md5_hashagg(md5(CAST((" +:+ quoted2 (Schema table) (Name table)
    +:+ ".*)AS TEXT))" +:+ orderByClause pkColumns +:+ ") FROM "
    +:+ quoted2 (Schema table) (Name table).

Definition log_verifying (table : Table) : event :=
  LogInfo (quoted2 (Schema table) (Name table)) "Verifying checksum".

Definition err_no_pkey (table : Table) : Error :=
  "table " +:+ quoted2 (Schema table) (Name table)
    +:+ " has no primary key, cannot guarantee checksum match".

Definition err_source_scan (table : Table) (err : Error) : Error :=
  wrap ("failed to scan the source checksum for table "
          +:+ Schema table +:+ "." +:+ Name table) err.

Definition err_target_scan (table : Table) (err : Error) : Error :=
  wrap ("failed to scan the target checksum for table "
          +:+ Schema table +:+ "." +:+ Name table) err.

Definition err_differ (table : Table) : Error :=
  "checksums differ for table " +:+ Schema table +:+ "." +:+ Name table.

(** The body of [for _, table := range tables]. *)
Fixpoint verify_tables (env : Env) (tables : list Table)
  : list event * outcome :=
  match tables with
  | [] => ([], Returns None)
  | table :: rest =>
      if decide (size (PKeyFields table) < 1)%nat
      then ([log_verifying table], Returns (Some (err_no_pkey table)))
      else
        match pkColumns table with
        | None => ([log_verifying table], Panics)
        | Some cols =>
            let sql := checksum_sql table cols in
            match source_scan env sql with
            | (_, Some err) =>
                ([log_verifying table; QuerySource sql],
                 Returns (Some (err_source_scan table err)))
            | (sourceChecksum, None) =>
                match target_scan env sql with
                | (_, Some err) =>
                    ([log_verifying table; QuerySource sql; QueryTarget sql],
                     Returns (Some (err_target_scan table err)))
                | (targetChecksum, None) =>
                    if decide (sourceChecksum ≠ targetChecksum)
                    then
                      ([log_verifying table; QuerySource sql; QueryTarget sql],
                       Returns (Some (err_differ table)))
                    else
                      let continued := verify_tables env rest in
                      (log_verifying table :: QuerySource sql
                         :: QueryTarget sql :: continued.1, continued.2)
                end
            end
        end
  end.

(** [func (a *Axon) Verify(schemas, includeTables, excludeTables []string) error] *)
Definition Verify (env : Env) (schemas includeTables excludeTables : list string)
  : list event * outcome :=
  match connect_source env with
  | Some err =>
      ([], Returns (Some (wrap "unable to connect to source database" err)))
  | None =>
  match prepare_source env with
  | Some err =>
      ([], Returns (Some
         (wrap "unable to prepare source database for Integrity checks" err)))
  | None =>
  match connect_target env with
  | Some err =>
      ([], Returns (Some (wrap "unable to connect to target database" err)))
  | None =>
  match prepare_target env with
  | Some err =>
      ([], Returns (Some
         (wrap "unable to prepare target database for Integrity checks" err)))
  | None =>
  match GenerateTablesList env schemas includeTables excludeTables with
  | (_, Some err) =>
      ([], Returns (Some
         (wrap "unable to generate the list of source tables to check" err)))
  | (tables, None) => verify_tables env tables
  end end end end end.

(** A table goes through an iteration of the loop without ending it. *)
Definition passes (env : Env) (table : Table) : Prop :=
  (1 ≤ size (PKeyFields table))%nat ∧
  ∃ cols checksum,
    pkColumns table = Some cols ∧
    source_scan env (checksum_sql table cols) = (checksum, None) ∧
    target_scan env (checksum_sql table cols) = (checksum, None).

(** The preamble of [Verify] succeeds and selects [tables]. *)
Definition selects (env : Env) (schemas includeTables excludeTables : list string)
    (tables : list Table) : Prop :=
  connect_source env = None ∧ prepare_source env = None ∧
  connect_target env = None ∧ prepare_target env = None ∧
  GenerateTablesList env schemas includeTables excludeTables = (tables, None).

End Verifier.

(** ** AxonConfig and NewAxonConfigFromEnv *)

Module Config.

(** [type AxonConfig struct]; the [envconfig] tag of each field is the
    variable name used by [field_key] below.

    Modelled from the spec: the field [StartFromID].  [Axon.Run] reads
    [a.Config.StartFromID], but the declaration of [AxonConfig] that is
    available ends with [ShutdownAfterLastChangeset]; the design document
    lists the option as [AXON_START_FROM_ID] (integer). *)
Record AxonConfig : Type := {
  SourceDBHost : string;
  SourceDBPort : Z;
  SourceDBName : string;
  SourceDBUser : string;
  SourceDBPass : string;
  TargetDBHost : string;
  TargetDBPort : Z;
  TargetDBName : string;
  TargetDBUser : string;
  TargetDBPass : string;
  TargetDBSchema : string;
  ShutdownAfterLastChangeset : bool;
  StartFromID : Z
}.

(** The process environment as [envconfig.Process] reads it: the value
    found for a variable name, if the variable is set (a variable set to
    the empty string is set). *)
Abbreviation Environ := (gmap string string).

(** [envconfig.Process("axon", &config)] reads the field tagged
    [envconfig:"target_db_schema"] from [AXON_TARGET_DB_SCHEMA], the key
    of the field ... *)
Definition field_key (upper_tag : string) : string := "AXON_" +:+ upper_tag.

(** ... and, when that variable is not set, from the upper-cased tag
    alone, [TARGET_DB_SCHEMA], the alternative name of the field:
    [lookupEnv(info.Key)], then [lookupEnv(info.Alt)]. *)
Definition lookupEnv (env : Environ) (upper_tag : string) : option string :=
  match env !! field_key upper_tag with
  | Some value => Some value
  | None => env !! upper_tag
  end.

(** The value a field is decoded from: the variable when it is set, else
    the [default] tag when there is one, else nothing (the field keeps its
    zero value). *)
Definition field_value (env : Environ) (upper_tag : string)
    (default : option string) : option string :=
  match lookupEnv env upper_tag with
  | Some value => Some value
  | None => default
  end.

(** The text of the error [envconfig.Process] returns for a value it
    cannot convert, the [Error] method of its [ParseError]:
    ["envconfig.Process: assigning %[1]s to %[2]s: converting '%[3]s' to
    type %[4]s. details: %[5]s"] with the key, the name of the field, the
    value, the type of the field and the error of the conversion.  The key
    is the prefixed one also when the value was found under the bare
    tag. *)
Definition ParseError (KeyName FieldName TypeName Value : string)
    (Err : Error) : Error :=
  "envconfig.Process: assigning " +:+ KeyName +:+ " to " +:+ FieldName
    +:+ ": converting '" +:+ Value +:+ "' to type " +:+ TypeName
    +:+ ". details: " +:+ Err.

Section Process.

(** [strconv.ParseInt(value, 0, 64)] of the Go standard library, with the
    text of its error, and [strconv.Quote]. *)
Variable ParseInt : string → Z + Error.
Variable Quote : string → string.

(** [strconv.ParseBool], whose error is the syntax error of [strconv]. *)
Definition ParseBool (s : string) : bool + Error :=
  if bool_decide (s ∈ ["1"; "t"; "T"; "TRUE"; "true"; "True"]) then inl true
  else if bool_decide (s ∈ ["0"; "f"; "F"; "FALSE"; "false"; "False"])
  then inl false
  else inr ("strconv.ParseBool: parsing " +:+ Quote s +:+ ": invalid syntax").

Definition string_field (env : Environ) (upper_tag : string)
    (default : option string) : string :=
  match field_value env upper_tag default with
  | Some value => value
  | None => EmptyString
  end.

Definition int_field (env : Environ) (upper_tag FieldName : string)
  : Z + Error :=
  match field_value env upper_tag None with
  | None => inl 0
  | Some value =>
      match ParseInt value with
      | inl n => inl n
      | inr err =>
          inr (ParseError (field_key upper_tag) FieldName "int" value err)
      end
  end.

Definition bool_field (env : Environ) (upper_tag FieldName : string)
  : bool + Error :=
  match field_value env upper_tag None with
  | None => inl false
  | Some value =>
      match ParseBool value with
      | inl b => inl b
      | inr err =>
          inr (ParseError (field_key upper_tag) FieldName "bool" value err)
      end
  end.

(** [envconfig.Process("axon", &config)] of the envconfig library: the
    fields are decoded in the order of their declaration and the first
    failure is returned.  [StartFromID], whose place in the declaration is
    not known, is decoded last. *)
Definition Process (env : Environ) : AxonConfig + Error :=
  match int_field env "SOURCE_DB_PORT" "SourceDBPort" with
  | inr err => inr err
  | inl sourcePort =>
  match int_field env "TARGET_DB_PORT" "TargetDBPort" with
  | inr err => inr err
  | inl targetPort =>
  match bool_field env "SHUTDOWN_AFTER_LAST_CHANGESET"
          "ShutdownAfterLastChangeset" with
  | inr err => inr err
  | inl shutdownAfter =>
  match int_field env "START_FROM_ID" "StartFromID" with
  | inr err => inr err
  | inl startFrom =>
      inl {| SourceDBHost := string_field env "SOURCE_DB_HOST" None;
             SourceDBPort := sourcePort;
             SourceDBName := string_field env "SOURCE_DB_NAME" None;
             SourceDBUser := string_field env "SOURCE_DB_USER" None;
             SourceDBPass := string_field env "SOURCE_DB_PASS" None;
             TargetDBHost := string_field env "TARGET_DB_HOST" None;
             TargetDBPort := targetPort;
             TargetDBName := string_field env "TARGET_DB_NAME" None;
             TargetDBUser := string_field env "TARGET_DB_USER" None;
             TargetDBPass := string_field env "TARGET_DB_PASS" None;
             TargetDBSchema :=
               string_field env "TARGET_DB_SCHEMA" (Some "public");
             ShutdownAfterLastChangeset := shutdownAfter;
             StartFromID := startFrom |}
  end end end end.

(** [func NewAxonConfigFromEnv()], returning the configuration or an error *)
Definition NewAxonConfigFromEnv (env : Environ) : AxonConfig + Error :=
  match Process env with
  | inr err => inr (wrap "failed to process environment config" err)
  | inl config => inl config
  end.

End Process.

(** The numerals [ParseInt] is instantiated with in the examples: an
    optional minus sign and decimal digits without a leading zero, on
    which [strconv.ParseInt] with base 0 reads the decimal value. *)
Definition digit_of (a : Ascii.ascii) : option Z :=
  let n := Z.of_nat (Ascii.nat_of_ascii a) in
  if decide (48 ≤ n ≤ 57) then Some (n - 48) else None.

Fixpoint digits (acc : Z) (s : string) : option Z :=
  match s with
  | EmptyString => Some acc
  | String a s =>
      match digit_of a with
      | Some d => digits (10 * acc + d) s
      | None => None
      end
  end.

Definition decimal (s : string) : option Z :=
  match s with
  | EmptyString => None
  | String a rest =>
      if Ascii.eqb a "-"%char then
        match rest with
        | EmptyString => None
        | String b _ =>
            if Ascii.eqb b "0"%char then None else Z.opp <$> digits 0 rest
        end
      else if Ascii.eqb a "0"%char then
        match rest with
        | EmptyString => Some 0
        | String _ _ => None
        end
      else digits 0 s
  end.

(** [strconv.Quote] on a string that has no character to escape. *)
Definition quote (s : string) : string := dq +:+ s +:+ dq.

Definition ParseInt_decimal (s : string) : Z + Error :=
  match decimal s with
  | Some n => inl n
  | None =>
      inr ("strconv.ParseInt: parsing " +:+ quote s +:+ ": invalid syntax")
  end.

End Config.

(** ** Changesets and the functions axon.go calls on them *)

(** Modelled from the spec: the changeset entity of the design document
    (section 3), whose declaration is not among the sources.  axon.go reads
    [ID], [Kind], [Schema] and [Table]; [processChange] switches over three
    kinds and has no default case, so a fourth kind stands for every other
    value. *)
Inductive ChangesetKind : Type :=
| ChangesetKindInsert
| ChangesetKindUpdate
| ChangesetKindDelete
| ChangesetKindOther (kind : string).

Record Changeset : Type := {
  ID : Z;
  Kind : ChangesetKind;
  Schema : string;
  Table : string;
  NewValues : list (string * string);
  OldValues : list (string * string)
}.

(** [change.Schema = schema] *)
Definition set_Schema (schema : string) (change : Changeset) : Changeset :=
  {| ID := ID change; Kind := Kind change; Schema := schema;
     Table := Table change; NewValues := NewValues change;
     OldValues := OldValues change |}.

(** The functions of the repository that axon.go calls and that are not
    among the sources, over a state [W] of the two databases and of the
    metadata loaded from them. *)
Class World (W : Type) : Type := {
  getPrimaryKeyForChange : W → Changeset → list string * option Error;
  insertRow : W → Changeset → W * option Error;
  updateRow : W → Changeset → list string → W * option Error;
  deleteRow : W → Changeset → list string → W * option Error;
  IsLatestChangeSet : W → Z → bool * option Error
}.

(** ** The applier: processChange and its three cases *)

Module Applier.

(** logrus severities used by axon.go ([Errorf], [Error], [Info]) and the
    warning severity the design document speaks of. *)
Inductive Level : Type := ErrorLevel | WarnLevel | InfoLevel.

Record Entry : Type := {
  level : Level;
  fields : list (string * string);
  message : string
}.

(** What the worker does to the outside, in order. *)
Inductive action : Type :=
| Log (entry : Entry)
| CallInsertRow (change : Changeset)
| CallUpdateRow (change : Changeset) (pk : list string)
| CallDeleteRow (change : Changeset) (pk : list string)
| CallIsLatestChangeSet (id : Z)
| SendShutdown
| Cancel
| CloseWarpPipe
| CloseSource
| CloseTarget.

(** The worker and what it acts on: the databases, the number of signals
    buffered in [a.shutdownCh] (made with capacity 1 by [Run]) and the
    actions so far. *)
Record state (W : Type) : Type := {
  world : W;
  shutdownCh : nat;
  trace : list action
}.
Arguments world {W} _.
Arguments shutdownCh {W} _.
Arguments trace {W} _.

Section Process.

Context {W : Type} `{World W}.

Definition emit (a : action) (st : state W) : state W :=
  {| world := world st; shutdownCh := shutdownCh st;
     trace := trace st ++ [a] |}.

Definition set_world (w : W) (st : state W) : state W :=
  {| world := w; shutdownCh := shutdownCh st; trace := trace st |}.

(** [a.Logger.WithError(err).WithField("table", table).Errorf(msg)] *)
Definition log_error (err : Error) (table : string) (msg : string) : action :=
  Log {| level := ErrorLevel;
         fields := [("error", err); ("table", table)];
         message := msg |}.

(** A [[]string] under the verb [%s]. *)
Definition fmt_strings (l : list string) : string :=
  "[" +:+ String.concat " " l +:+ "]".

(** [if err != nil { log }] *)
Definition log_if (err : option Error) (entry : Error → action)
    (st : state W) : state W :=
  match err with
  | Some e => emit (entry e) st
  | None => st
  end.

(** [a.Logger.WithError(err).WithField("table", change.Table).Errorf(
      "unable to process DELETE for table '%s', changeset has no primary key",
      change.Table)], and the same with [UPDATE]. *)
Definition no_primary_key (verb : string) (change : Changeset) (err : Error)
  : action :=
  log_error err (Table change)
    ("unable to process " +:+ verb +:+ " for table '" +:+ Table change
       +:+ "', changeset has no primary key").

(** [...Errorf("failed to DELETE row for table '%s' (pk: %s)",
      change.Table, pk)], and the same with [UPDATE]. *)
Definition failed_statement (verb : string) (change : Changeset)
    (pk : list string) (err : Error) : action :=
  log_error err (Table change)
    ("failed to " +:+ verb +:+ " row for table '" +:+ Table change
       +:+ "' (pk: " +:+ fmt_strings pk +:+ ")").

(** [...Errorf("failed to INSERT row for table '%s'", change.Table)] *)
Definition failed_insert (change : Changeset) (err : Error) : action :=
  log_error err (Table change)
    ("failed to INSERT row for table '" +:+ Table change +:+ "'").

(** [func (a *Axon) processDelete(targetDB *sqlx.DB, change *Changeset)] *)
Definition processDelete (change : Changeset) (st : state W) : state W :=
  let '(pk, err) := getPrimaryKeyForChange (world st) change in
  let st := log_if err (no_primary_key "DELETE" change) st in
  let st := emit (CallDeleteRow change pk) st in
  let '(w, err) := deleteRow (world st) change pk in
  let st := set_world w st in
  log_if err (failed_statement "DELETE" change pk) st.

(** [func (a *Axon) processInsert(sourceDB, targetDB *sqlx.DB, change *Changeset)] *)
Definition processInsert (change : Changeset) (st : state W) : state W :=
  let st := emit (CallInsertRow change) st in
  let '(w, err) := insertRow (world st) change in
  let st := set_world w st in
  log_if err (failed_insert change) st.

(** [func (a *Axon) processUpdate(targetDB *sqlx.DB, change *Changeset)] *)
Definition processUpdate (change : Changeset) (st : state W) : state W :=
  let '(pk, err) := getPrimaryKeyForChange (world st) change in
  let st := log_if err (no_primary_key "UPDATE" change) st in
  let st := emit (CallUpdateRow change pk) st in
  let '(w, err) := updateRow (world st) change pk in
  let st := set_world w st in
  log_if err (failed_statement "UPDATE" change pk) st.

(** [func (a *Axon) processChange(sourceDB, targetDB *sqlx.DB, change *Changeset)] *)
Definition processChange (change : Changeset) (st : state W) : state W :=
  match Kind change with
  | ChangesetKindInsert => processInsert change st
  | ChangesetKindUpdate => processUpdate change st
  | ChangesetKindDelete => processDelete change st
  | ChangesetKindOther _ => st
  end.

End Process.

(** The actions of [if err != nil { log }]. *)
Definition logged (err : option Error) (entry : Error → action) : list action :=
  match err with
  | Some e => [entry e]
  | None => []
  end.

(** An error arises while a change is applied: the primary key cannot be
    extracted, or the statement fails. *)
Inductive arises {W : Type} `{World W} (st : state W) (change : Changeset)
  : Error → Prop :=
| arises_insert w e :
    Kind change = ChangesetKindInsert →
    insertRow (world st) change = (w, Some e) →
    arises st change e
| arises_primary_key pk e :
    Kind change = ChangesetKindUpdate ∨ Kind change = ChangesetKindDelete →
    getPrimaryKeyForChange (world st) change = (pk, Some e) →
    arises st change e
| arises_update pk w e :
    Kind change = ChangesetKindUpdate →
    (getPrimaryKeyForChange (world st) change).1 = pk →
    updateRow (world st) change pk = (w, Some e) →
    arises st change e
| arises_delete pk w e :
    Kind change = ChangesetKindDelete →
    (getPrimaryKeyForChange (world st) change).1 = pk →
    deleteRow (world st) change pk = (w, Some e) →
    arises st change e.

(** The changeset an action hands to the target, if it is a statement. *)
Definition statement_of (a : action) : option Changeset :=
  match a with
  | CallInsertRow change => Some change
  | CallUpdateRow change _ => Some change
  | CallDeleteRow change _ => Some change
  | _ => None
  end.

(** The entry an action logs, if it logs. *)
Definition entry_of (a : action) : option Entry :=
  match a with
  | Log entry => Some entry
  | _ => None
  end.

(** An action of applying [change]: a statement for it, or an entry at
    error severity. *)
Definition applies (change : Changeset) (a : action) : Prop :=
  match a with
  | Log entry => level entry = ErrorLevel
  | CallInsertRow c | CallUpdateRow c _ | CallDeleteRow c _ => c = change
  | _ => False
  end.

(** An action that is a statement is one against [schema]. *)
Definition targets (schema : string) (a : action) : Prop :=
  ∀ change, statement_of a = Some change → Schema change = schema.

End Applier.

(** ** The changeset listener *)

Module Listener.

(** Modelled from the spec: the constructor of the notify listener and
    its option ([NewNotifyListener], [StartFromID]), which are not among
    the sources: the listener keeps the changeset id it is told to start
    from.  What the listener emits is not modelled. *)
Record NotifyListener : Type := { startFromID : Z }.

Inductive Option : Type := StartFromID (changesetID : Z).

Definition apply_option (l : NotifyListener) (o : Option) : NotifyListener :=
  match o with
  | StartFromID changesetID => {| startFromID := changesetID |}
  end.

Definition NewNotifyListener (opts : list Option) : NotifyListener :=
  fold_left apply_option opts {| startFromID := 0 |}.

End Listener.

(** ** The coordinator: Axon.Run and Axon.Shutdown *)

Module Coordinator.

Import Config Applier.

(** The outcome of each step [Run] takes before its loop. *)
Record Setup : Type := {
  open_source : option Error;
  open_target : option Error;
  checkTargetVersion : option Error;
  printSourceStats : option Error;
  loadPrimaryKeys : option Error;
  loadColumnSequences : option Error;
  loadOrphanSequences : option Error;
  NewWarpPipe : option Error;
  wp_Open : option Error
}.

(** What happens around and at the [select] of the loop, one after the
    other.  A [select] takes one of the communications that can proceed;
    which one, and what the other parties do meanwhile, is given by the
    schedule. *)
Inductive step (W : Type) : Type :=
| Signal                       (* signal.Notify relays SIGINT or SIGTERM *)
| Elsewhere (f : W → W)        (* other sessions change the databases *)
| RecvShutdown                 (* case <-a.shutdownCh *)
| RecvErr (err : Error)        (* case err := <-errs *)
| RecvChange (change : Changeset). (* case change := <-changes *)
Arguments Signal {W}.
Arguments Elsewhere {W} _.
Arguments RecvShutdown {W}.
Arguments RecvErr {W} _.
Arguments RecvChange {W} _.

(** Where [Run] is once the schedule is used up. *)
Inductive status : Type :=
| Returned (err : option Error)
| Selecting             (* waiting in [select] *)
| BlockedInShutdown.    (* waiting forever in [a.shutdownCh <- SIGTERM] *)

Section Run.

Context {W : Type} `{World W}.

(** The runtime's send of a signal never blocks: the signal is dropped
    when the buffer of the channel is full. *)
Definition relay_signal (st : state W) : state W :=
  {| world := world st;
     shutdownCh := if decide (shutdownCh st < 1)%nat
                   then S (shutdownCh st) else shutdownCh st;
     trace := trace st |}.

(** [func (a *Axon) Shutdown()]: [a.shutdownCh <- syscall.SIGTERM].
    [None] when the buffer is full: the send blocks, and nothing but
    the [select] of [Run] ever receives from the channel. *)
Definition Shutdown (st : state W) : option (state W) :=
  if decide (shutdownCh st < 1)%nat
  then Some {| world := world st; shutdownCh := S (shutdownCh st);
               trace := trace st ++ [SendShutdown] |}
  else None.

(** The schema override at the head of [case change := <-changes]. *)
Definition override_schema (config : AxonConfig) (change : Changeset)
  : Changeset :=
  if decide (TargetDBSchema config ≠ EmptyString)
  then set_Schema (TargetDBSchema config) change
  else change.

(** [case <-a.shutdownCh] *)
Definition shut_down (st : state W) : state W :=
  {| world := world st;
     shutdownCh := pred (shutdownCh st);
     trace := trace st ++
       [Log {| level := ErrorLevel; fields := [];
               message := "shutting down..." |};
        Cancel; CloseWarpPipe; CloseSource; CloseTarget] |}.

Definition log_sync_complete : action :=
  Log {| level := InfoLevel; fields := [("component", "warp_pipe")];
         message := "sync is complete. shutting down..." |}.

(** What follows [a.processChange(...)] inside
    [case change := <-changes]: the check of the drain mode, and then
    [continue], the next turn of the loop. *)
Definition drain_check (config : AxonConfig) (change : Changeset)
    (continue : state W → state W * status) (st : state W)
  : state W * status :=
  if ShutdownAfterLastChangeset config then
    let st := emit (CallIsLatestChangeSet (ID change)) st in
    match IsLatestChangeSet (world st) (ID change) with
    | (_, Some err) =>
        (st, Returned (Some
           (wrap "failed to determine if the sync is complete" err)))
    | (true, None) =>
        let st := emit log_sync_complete st in
        match Shutdown st with
        | Some st => continue st
        | None => (st, BlockedInShutdown)
        end
    | (false, None) => continue st
    end
  else continue st.

(** The [for { select { ... } }] of [Run]. *)
Fixpoint run_loop (config : AxonConfig) (schedule : list (step W))
    (st : state W) : state W * status :=
  match schedule with
  | [] => (st, Selecting)
  | Signal :: schedule => run_loop config schedule (relay_signal st)
  | Elsewhere f :: schedule =>
      run_loop config schedule (set_world (f (world st)) st)
  | RecvShutdown :: schedule =>
      if decide (shutdownCh st = 0)%nat
      then run_loop config schedule st
      else (shut_down st, Returned None)
  | RecvErr err :: schedule =>
      (st, Returned (Some (wrap "listener received an error" err)))
  | RecvChange change :: schedule =>
      let change := override_schema config change in
      drain_check config change (run_loop config schedule)
        (processChange change st)
  end.

(** The steps of [Run] before the loop, in order. *)
Definition setup_steps (setup : Setup) : list (string * option Error) :=
  [("unable to connect to source database", open_source setup);
   ("unable to connect to target database", open_target setup);
   ("unable to check target database version", checkTargetVersion setup);
   ("unable to get source db stats", printSourceStats setup);
   ("unable to load target DB primary keys", loadPrimaryKeys setup);
   ("unable to load target DB column sequences", loadColumnSequences setup);
   ("unable to load source DB orphan sequences", loadOrphanSequences setup)].

Definition connect_steps (setup : Setup) : list (string * option Error) :=
  [("failed to establish a warp-pipe", NewWarpPipe setup);
   ("failed to dial the listener", wp_Open setup)].

(** The first step that fails, with its error wrapped. *)
Fixpoint first_failure (steps : list (string * option Error)) : option Error :=
  match steps with
  | [] => None
  | (msg, Some err) :: _ => Some (wrap msg err)
  | (_, None) :: steps => first_failure steps
  end.

(** What a call of [Run] leaves: the state, the listener it made, if it
    came that far, and where it stands. *)
Record run : Type := {
  final : state W;
  listener : option Listener.NotifyListener;
  result : status
}.

(** [func (a *Axon) Run() error] *)
Definition Run (config : AxonConfig) (setup : Setup)
    (schedule : list (step W)) (st : state W) : run :=
  match first_failure (setup_steps setup) with
  | Some err =>
      {| final := st; listener := None; result := Returned (Some err) |}
  | None =>
      let l := Listener.NewNotifyListener
                 [Listener.StartFromID (StartFromID config)] in
      match first_failure (connect_steps setup) with
      | Some err =>
          {| final := st; listener := Some l;
             result := Returned (Some err) |}
      | None =>
          let '(st', r) := run_loop config schedule st in
          {| final := st'; listener := Some l; result := r |}
      end
  end.

End Run.

(** [Run] reaches its loop. *)
Definition started (setup : Setup) : Prop :=
  first_failure (setup_steps setup) = None ∧
  first_failure (connect_steps setup) = None.

(** Every step of the setup succeeds. *)
Definition setup_ok : Setup :=
  {| open_source := None; open_target := None; checkTargetVersion := None;
     printSourceStats := None; loadPrimaryKeys := None;
     loadColumnSequences := None; loadOrphanSequences := None;
     NewWarpPipe := None; wp_Open := None |}.

(** A worker that has done nothing yet. *)
Definition fresh {W : Type} (w : W) : state W :=
  {| world := w; shutdownCh := 0; trace := [] |}.

End Coordinator.

(** ** The databases of the design document *)

Module Databases.

(** Modelled from the spec: [getPrimaryKeyForChange], [insertRow],
    [updateRow], [deleteRow] and [IsLatestChangeSet], which are not among
    the sources, over the rows of the target, the primary keys cached
    from it and the changesets table of the source (sections 3, 4.B and
    4.C of the design document).  The sequences of section 4.C are left
    out. *)
Record Row : Type := {
  row_schema : string;
  row_table : string;
  row_values : list (string * string)
}.

Record DB : Type := {
  primaryKeys : list (string * list string);
  target : list Row;
  changesets : list Changeset
}.

Fixpoint assoc {A : Type} (k : string) (l : list (string * A)) : option A :=
  match l with
  | [] => None
  | (k', v) :: l => if decide (k = k') then Some v else assoc k l
  end.

(** The values of the key columns [pk] in a column-to-value map. *)
Definition projection (pk : list string) (values : list (string * string))
  : list (option string) :=
  map (fun k => assoc k values) pk.

(** The key columns of the table of a change, with an error when the
    table is unknown or [old_values] lacks one of them. *)
Definition getPrimaryKey (d : DB) (change : Changeset)
  : list string * option Error :=
  match assoc (Table change) (primaryKeys d) with
  | None => ([], Some ("no primary key for table " +:+ Table change))
  | Some pk =>
      if bool_decide (Forall (fun k => is_Some (assoc k (OldValues change))) pk)
      then (pk, None)
      else ([], Some ("changeset has no value for the primary key of "
                        +:+ Table change))
  end.

Definition same_row (pk : list string) (schema table : string)
    (values : list (string * string)) (r : Row) : bool :=
  bool_decide (row_schema r = schema ∧ row_table r = table ∧
               projection pk (row_values r) = projection pk values).

(** The target already holds the row that [change] inserts: a row of the
    same table with the key of [new_values]. *)
Definition already_there (d : DB) (change : Changeset) : bool :=
  let pk := default [] (assoc (Table change) (primaryKeys d)) in
  existsb (same_row pk (Schema change) (Table change) (NewValues change))
    (target d).

Definition duplicate_key : Error :=
  "duplicate key value violates unique constraint".

(** [INSERT INTO "schema"."table" (c1,...) VALUES ($1,...)] built from
    [new_values]; a row with the same key is a primary-key conflict. *)
Definition insert (d : DB) (change : Changeset) : DB * option Error :=
  if already_there d change
  then (d, Some duplicate_key)
  else ({| primaryKeys := primaryKeys d;
           target := target d ++
             [{| row_schema := Schema change; row_table := Table change;
                 row_values := NewValues change |}];
           changesets := changesets d |}, None).

(** The values of a row after [SET c=$i,...] over [new_values]. *)
Definition set_columns (new old : list (string * string))
  : list (string * string) :=
  new ++ filter (fun kv => assoc kv.1 new = None) old.

(** [UPDATE "schema"."table" SET c=$i,... WHERE pk1=$j AND ...]; the
    statement has at least one key column. *)
Definition update (d : DB) (change : Changeset) (pk : list string)
  : DB * option Error :=
  match pk with
  | [] => (d, Some "statement without a key column")
  | _ :: _ =>
      ({| primaryKeys := primaryKeys d;
          target := map (fun r =>
            if same_row pk (Schema change) (Table change) (OldValues change) r
            then {| row_schema := row_schema r; row_table := row_table r;
                    row_values := set_columns (NewValues change) (row_values r) |}
            else r) (target d);
          changesets := changesets d |}, None)
  end.

(** [DELETE FROM "schema"."table" WHERE pk1=$1 AND ...] *)
Definition delete (d : DB) (change : Changeset) (pk : list string)
  : DB * option Error :=
  match pk with
  | [] => (d, Some "statement without a key column")
  | _ :: _ =>
      ({| primaryKeys := primaryKeys d;
          target := filter (fun r =>
            same_row pk (Schema change) (Table change) (OldValues change) r
              = false) (target d);
          changesets := changesets d |}, None)
  end.

(** [is_latest(id)]: [id] equals the current maximum changeset id on the
    source. *)
Definition is_latest (d : DB) (id : Z) : bool * option Error :=
  (bool_decide (Exists (fun c => ID c = id) (changesets d) ∧
                Forall (fun c => ID c ≤ id) (changesets d)), None).

(** A producer transaction commits a changeset on the source. *)
Definition commit (change : Changeset) (d : DB) : DB :=
  {| primaryKeys := primaryKeys d; target := target d;
     changesets := changesets d ++ [change] |}.

#[global] Instance replicated_world : World DB := {
  getPrimaryKeyForChange := getPrimaryKey;
  insertRow := insert;
  updateRow := update;
  deleteRow := delete;
  IsLatestChangeSet := is_latest
}.

End Databases.

(** A world whose source cannot be asked for its latest changeset: the
    databases above behind a connection that [IsLatestChangeSet] fails on. *)
Module Unreachable.

Record DB : Type := { databases : Databases.DB }.

Definition lift (r : Databases.DB * option Error) : DB * option Error :=
  ({| databases := r.1 |}, r.2).

#[global] Instance unreachable_world : World DB := {
  getPrimaryKeyForChange d := Databases.getPrimaryKey (databases d);
  insertRow d change := lift (Databases.insert (databases d) change);
  updateRow d change pk := lift (Databases.update (databases d) change pk);
  deleteRow d change pk := lift (Databases.delete (databases d) change pk);
  IsLatestChangeSet _ _ := (false, Some "connection refused"%string)
}.

End Unreachable.


(** ** Examples of configurations, changesets and databases *)

Module RunExamples.

Import Config Applier Coordinator.

(** A configuration with the target schema and the drain mode given. *)
Definition config (schema : string) (drain : bool) : AxonConfig :=
  {| SourceDBHost := "127.0.0.1"; SourceDBPort := 5432;
     SourceDBName := "test"; SourceDBUser := "test"; SourceDBPass := "test";
     TargetDBHost := "127.0.0.1"; TargetDBPort := 5433;
     TargetDBName := "test"; TargetDBUser := "test"; TargetDBPass := "test";
     TargetDBSchema := schema;
     ShutdownAfterLastChangeset := drain;
     StartFromID := 0 |}.

Definition insert_alice : Changeset :=
  {| ID := 1; Kind := ChangesetKindInsert; Schema := "public"; Table := "users";
     NewValues := [("id", "1"); ("name", "alice")]; OldValues := [] |}.

Definition insert_bob : Changeset :=
  {| ID := 2; Kind := ChangesetKindInsert; Schema := "public"; Table := "users";
     NewValues := [("id", "2"); ("name", "bob")]; OldValues := [] |}.

(** A Delete and an Update captured without [old_values]. *)
Definition delete_without_key : Changeset :=
  {| ID := 3; Kind := ChangesetKindDelete; Schema := "public"; Table := "users";
     NewValues := []; OldValues := [] |}.

Definition update_without_key : Changeset :=
  {| ID := 4; Kind := ChangesetKindUpdate; Schema := "public"; Table := "users";
     NewValues := [("name", "carol")]; OldValues := [] |}.

Definition alice : Databases.Row :=
  {| Databases.row_schema := "public"; Databases.row_table := "users";
     Databases.row_values := [("id", "1"); ("name", "alice")] |}.

(** The target already holds the row of [insert_alice], which is the only
    changeset of the source. *)
Definition replicated : Databases.DB :=
  {| Databases.primaryKeys := [("users", ["id"])];
     Databases.target := [alice];
     Databases.changesets := [insert_alice] |}.

(** Nothing is replicated yet. *)
Definition empty_target : Databases.DB :=
  {| Databases.primaryKeys := [("users", ["id"])];
     Databases.target := [];
     Databases.changesets := [insert_alice] |}.


End RunExamples.

(** ** Examples of tables and databases for the verifier *)

Module VerifyExamples.

Import db Verifier.

Definition users : Table :=
  {| Name := "users"; Schema := "public"; PKeyFields := pkey_of_list ["id"] |}.

Definition order_lines : Table :=
  {| Name := "order_lines"; Schema := "public";
     PKeyFields := pkey_of_list ["order_id"; "line"] |}.

Definition audit_log : Table :=
  {| Name := "audit_log"; Schema := "public"; PKeyFields := ∅ |}.

(** A descriptor whose only position is 0 instead of 1. *)
Definition misplaced : Table :=
  {| Name := "events"; Schema := "public"; PKeyFields := {[ 0 := "id" ]} |}.

(** A descriptor of two key columns at the positions 1 and 3. *)
Definition gapped : Table :=
  {| Name := "ledger"; Schema := "public";
     PKeyFields := {[ 1 := "account"; 3 := "entry" ]} |}.

Definition sql_of (table : Table) : string :=
  checksum_sql table (default [] (pkColumns table)).

(** Both databases answer every checksum query; they agree on [users]
    only. *)
Definition env (tables : list Table) : Env :=
  {| connect_source := None; prepare_source := None;
     connect_target := None; prepare_target := None;
     GenerateTablesList := fun _ _ _ => (tables, None);
     source_scan := fun _ => ("9e107d9d372bb6826bd81d3542a419d6", None);
     target_scan := fun sql =>
       if decide (sql = sql_of users)
       then ("9e107d9d372bb6826bd81d3542a419d6", None)
       else ("e4d909c290d0fb1ca068ffaddf22cbd0", None) |}.

End VerifyExamples.

(** ** Examples of environments *)

Module ConfigExamples.

Import Config.

(** An environment that leaves [AXON_TARGET_DB_SCHEMA] and
    [TARGET_DB_SCHEMA] unset. *)
Definition environ : Environ :=
  list_to_map
    [("AXON_SOURCE_DB_HOST", "127.0.0.1"); ("AXON_SOURCE_DB_PORT", "5432");
     ("AXON_TARGET_DB_HOST", "127.0.0.1"); ("AXON_TARGET_DB_PORT", "5433");
     ("AXON_SHUTDOWN_AFTER_LAST_CHANGESET", "true");
     ("AXON_START_FROM_ID", "500")].

(** The configuration loaded from it. *)
Definition loaded : AxonConfig :=
  match NewAxonConfigFromEnv ParseInt_decimal quote environ with
  | inl config => config
  | inr _ => RunExamples.config EmptyString false
  end.

(** An environment of a deployment that names the schema without the
    prefix of the worker. *)
Definition environ_bare : Environ :=
  list_to_map
    [("AXON_SOURCE_DB_HOST", "127.0.0.1"); ("AXON_SOURCE_DB_PORT", "5432");
     ("AXON_TARGET_DB_HOST", "127.0.0.1"); ("AXON_TARGET_DB_PORT", "5433");
     ("TARGET_DB_SCHEMA", "tenant")].

Definition loaded_bare : AxonConfig :=
  match NewAxonConfigFromEnv ParseInt_decimal quote environ_bare with
  | inl config => config
  | inr _ => RunExamples.config EmptyString false
  end.

End ConfigExamples.

(** ** Connections: getDBConnString and the pgx configuration *)

Module Connections.

Import Config.

(** The verb [%d] of [fmt.Sprintf] on an [int]. *)
Definition fmt_d (n : Z) : string := DecimalString.NilZero.string_of_int (Z.to_int n).

(** [func getDBConnString(host string, port int, name, user, pass string) string] *)
Definition getDBConnString (host : string) (port : Z) (name user pass : string)
  : string :=
  "user=" +:+ user +:+ " password=" +:+ pass +:+ " dbname=" +:+ name
    +:+ " host=" +:+ host +:+ " port=" +:+ fmt_d port
    +:+ " sslmode=" +:+ "disable".

(** The conversion [uint16(x)] of an [int]: the low 16 bits. *)
Definition uint16 (x : Z) : Z := x mod 65536.

(** The fields of [pgx.ConnConfig] that axon.go sets. *)
Record ConnConfig : Type := {
  Host : string;
  Port : Z;
  User : string;
  Password : string;
  Database : string
}.

(** The [pgx.ConnConfig] of the source, as [Run] builds it for the
    listener and [Verify] for its source connection. *)
Definition source_ConnConfig (config : AxonConfig) : ConnConfig :=
  {| Host := SourceDBHost config;
     Port := uint16 (SourceDBPort config);
     User := SourceDBUser config;
     Password := SourceDBPass config;
     Database := SourceDBName config |}.

(** The [pgx.ConnConfig] of the target in [Verify]. *)
Definition target_ConnConfig (config : AxonConfig) : ConnConfig :=
  {| Host := TargetDBHost config;
     Port := uint16 (TargetDBPort config);
     User := TargetDBUser config;
     Password := TargetDBPass config;
     Database := TargetDBName config |}.

(** The connection string [Run] opens the source with through sqlx. *)
Definition source_ConnString (config : AxonConfig) : string :=
  getDBConnString (SourceDBHost config) (SourceDBPort config)
    (SourceDBName config) (SourceDBUser config) (SourceDBPass config).

(** The connection string [Run] opens the target with through sqlx. *)
Definition target_ConnString (config : AxonConfig) : string :=
  getDBConnString (TargetDBHost config) (TargetDBPort config)
    (TargetDBName config) (TargetDBUser config) (TargetDBPass config).

(** The connection string that names what a [pgx.ConnConfig] names. *)
Definition ConnString_of (c : ConnConfig) : string :=
  getDBConnString (Host c) (Port c) (Database c) (User c) (Password c).

End Connections.

(** ** What a run of the worker shows *)

Module Observations.

Import Config Applier Coordinator.

(** [processChange] has a case for the kind of the change. *)
Definition known (change : Changeset) : bool :=
  match Kind change with
  | ChangesetKindOther _ => false
  | _ => true
  end.

(** The changesets a schedule delivers, in order. *)
Definition received {W : Type} (schedule : list (step W)) : list Changeset :=
  omap (fun s => match s with RecvChange change => Some change | _ => None end)
    schedule.

(** The actions of [case <-a.shutdownCh], after the receive. *)
Definition shutdown_actions : list action :=
  [Log {| level := ErrorLevel; fields := []; message := "shutting down..." |};
   Cancel; CloseWarpPipe; CloseSource; CloseTarget].

(** Cancelling the listener or closing a connection. *)
Definition closes (a : action) : bool :=
  match a with
  | Cancel | CloseWarpPipe | CloseSource | CloseTarget => true
  | _ => false
  end.

(** An action of the drain mode. *)
Definition drains (a : action) : Prop :=
  (∃ id, a = CallIsLatestChangeSet id) ∨ a = log_sync_complete ∨
  a = SendShutdown.

(** The statement [processChange] hands to the target for a change, given
    the key that was extracted. *)
Definition statement (change : Changeset) (pk : list string) : list action :=
  match Kind change with
  | ChangesetKindInsert => [CallInsertRow change]
  | ChangesetKindUpdate => [CallUpdateRow change pk]
  | ChangesetKindDelete => [CallDeleteRow change pk]
  | ChangesetKindOther _ => []
  end.

(** What [processChange] does for a change in a state: the entries for the
    errors of the key and of the statement, around the statement. *)
Definition apply_actions {W : Type} `{World W} (st : state W)
    (change : Changeset) : list action :=
  let pk := (getPrimaryKeyForChange (world st) change).1 in
  let err := (getPrimaryKeyForChange (world st) change).2 in
  match Kind change with
  | ChangesetKindInsert =>
      [CallInsertRow change]
        ++ logged (insertRow (world st) change).2 (failed_insert change)
  | ChangesetKindUpdate =>
      logged err (no_primary_key "UPDATE" change)
        ++ [CallUpdateRow change pk]
        ++ logged (updateRow (world st) change pk).2
             (failed_statement "UPDATE" change pk)
  | ChangesetKindDelete =>
      logged err (no_primary_key "DELETE" change)
        ++ [CallDeleteRow change pk]
        ++ logged (deleteRow (world st) change pk).2
             (failed_statement "DELETE" change pk)
  | ChangesetKindOther _ => []
  end.

End Observations.

(** ** What a run of the verifier shows *)

Module VerifierObservations.

Import db Verifier.

(** Every position of the key is inside the slice made for it. *)
Definition in_range (m : gmap Z string) : Prop :=
  ∀ p column, m !! p = Some column → 1 ≤ p ≤ Z.of_nat (size m).

Definition is_log (e : event) : bool :=
  match e with
  | LogInfo _ _ => true
  | _ => false
  end.

Definition is_query (e : event) : bool :=
  match e with
  | LogInfo _ _ => false
  | _ => true
  end.

End VerifierObservations.

(** ** More examples *)

Module MoreExamples.

Import Config Coordinator.

(** The target refuses the query for its primary keys. *)
Definition setup_without_keys : Setup :=
  {| open_source := None; open_target := None; checkTargetVersion := None;
     printSourceStats := None;
     loadPrimaryKeys := Some "permission denied for table pg_constraint"%string;
     loadColumnSequences := None; loadOrphanSequences := None;
     NewWarpPipe := None; wp_Open := None |}.

(** A changeset of a kind [processChange] has no case for. *)
Definition truncate_users : Changeset :=
  {| ID := 5; Kind := ChangesetKindOther "truncate"; Schema := "public";
     Table := "users"; NewValues := []; OldValues := [] |}.

(** The source breaks the connection when asked for a checksum. *)
Definition env_source_down (tables : list db.Table) : Verifier.Env :=
  {| Verifier.connect_source := None; Verifier.prepare_source := None;
     Verifier.connect_target := None; Verifier.prepare_target := None;
     Verifier.GenerateTablesList := fun _ _ _ => (tables, None);
     Verifier.source_scan := fun _ => (EmptyString, Some "unexpected EOF"%string);
     Verifier.target_scan :=
       fun _ => ("9e107d9d372bb6826bd81d3542a419d6"%string, None) |}.

(** The target cannot be prepared for the checks. *)
Definition env_unprepared : Verifier.Env :=
  {| Verifier.connect_source := None; Verifier.prepare_source := None;
     Verifier.connect_target := None;
     Verifier.prepare_target := Some "permission denied for schema public"%string;
     Verifier.GenerateTablesList := fun _ _ _ => ([VerifyExamples.users], None);
     Verifier.source_scan := fun _ => (EmptyString, None);
     Verifier.target_scan := fun _ => (EmptyString, None) |}.

End MoreExamples.

(** ** The setup-db command (internal/cli/setup_db.go) *)

Module SetupDB.

Import Connections.

(** The connection part of what [parseConfig] returns; its declaration is
    not among the sources, the fields are those [RunE] reads. *)
Record CLIConnConfig : Type := {
  DBHost : string;
  DBPort : Z;
  DBUser : string;
  DBPass : string;
  DBName : string
}.




(** What the command does to the outside. *)
Inductive action : Type :=
| Connect (config : ConnConfig)
| SetupDatabase (schema : string) (ignoreTables : list string).

(** What the command obtains from outside. *)
Record Env : Type := {
  parseConfig : CLIConnConfig + Error;
  pgx_Connect : ConnConfig → option Error;
  db_SetupDatabase : string → list string → option Error
}.



End SetupDB.

(** ** The helpers of the integration test *)

Module IntegrationTest.

Definition nl : string := String (Ascii.ascii_of_nat 10) EmptyString.
Definition tab : string := String (Ascii.ascii_of_nat 9) EmptyString.

(** A line of a raw string literal inside [testSchema]: three tabs, the
    text, a line feed. *)
Definition line (text : string) : string := tab +:+ tab +:+ tab +:+ text +:+ nl.

(** [testSchema] *)
Definition testSchema : list string :=
  ["CREATE EXTENSION IF NOT EXISTS " +:+ dq +:+ "uuid-ossp" +:+ dq;
   "CREATE TABLE " +:+ dq +:+ "testTable" +:+ dq +:+ " (" +:+ nl
     +:+ line "id UUID PRIMARY KEY DEFAULT uuid_generate_v1mc(),"
     +:+ line "type_text TEXT,"
     +:+ line "type_date DATE,"
     +:+ line "type_boolean BOOLEAN,"
     +:+ line "type_json JSON,"
     +:+ line "type_jsonb JSONB,"
     +:+ line "type_array int4[]"
     +:+ tab +:+ tab +:+ ")";
   "CREATE TABLE empty_table (" +:+ nl
     +:+ line "id SERIAL PRIMARY KEY"
     +:+ tab +:+ tab +:+ ")"].

(** What the helpers do to the database server, the clock and the test. *)
Inductive action : Type :=
| Connect (err : option Error)     (* pgx.Connect and what it returned *)
| Close                            (* conn.Close() *)
| Sleep (seconds : Z)              (* time.Sleep *)
| Exec (sql : string)              (* conn.Exec *)
| Fatalf (msg : string)            (* t.Fatalf, which ends the goroutine *)
| Done.                            (* wg.Done() *)

(** The database server as the helpers meet it: what the [n]-th call of
    [pgx.Connect] returns, and what the execution of a statement returns. *)
Record Server : Type := {
  connect : nat → option Error;
  exec : string → option Error
}.

(** The loop of [waitForPostgresReady], with [remaining] turns left and
    [calls] calls of [pgx.Connect] made so far. *)
Fixpoint wait_loop (server : Server) (remaining calls : nat)
  : bool * list action :=
  match remaining with
  | O => (false, [])
  | S remaining =>
      match connect server calls with
      | None => (true, [Connect None; Close])
      | Some err =>
          let waited := wait_loop server remaining (S calls) in
          (waited.1, Connect (Some err) :: Sleep 2 :: waited.2)
      end
  end.

(** [func waitForPostgresReady(config *pgx.ConnConfig) bool], when
    [calls] calls of [pgx.Connect] were made before. *)
Definition waitForPostgresReady (server : Server) (calls : nat)
  : bool * list action :=
  wait_loop server 30 calls.

Definition is_connect (a : action) : bool :=
  match a with Connect _ => true | _ => false end.

Definition is_opened (a : action) : bool :=
  match a with Connect None => true | _ => false end.

Definition is_close (a : action) : bool :=
  match a with Close => true | _ => false end.

(** The calls of [pgx.Connect] in a trace. *)
Definition connects (trace : list action) : nat :=
  length (filter (fun a => is_connect a) trace).

(** [for _, s := range testSchema { conn.Exec(s) ... }] *)
Fixpoint install (server : Server) (statements : list string)
  : list action * option Error :=
  match statements with
  | [] => ([], None)
  | s :: statements =>
      match exec server s with
      | Some err =>
          ([Exec s], Some ("test schema installation failed: " +:+ err))
      | None =>
          let installed := install server statements in
          (Exec s :: installed.1, installed.2)
      end
  end.

(** [func setupTestSchema(config pgx.ConnConfig) error], when [calls]
    calls of [pgx.Connect] were made before; the deferred [conn.Close()]
    runs when the function returns. *)
Definition setupTestSchema (server : Server) (calls : nat)
  : list action * option Error :=
  let ready := waitForPostgresReady server calls in
  if negb ready.1
  then (ready.2, Some "database did not become ready in allowed time"%string)
  else
    match connect server (calls + connects ready.2) with
    | Some err => (ready.2 ++ [Connect (Some err)], Some err)
    | None =>
        let installed := install server testSchema in
        (ready.2 ++ [Connect None] ++ installed.1 ++ [Close], installed.2)
    end.

(** The connections opened and those closed in a trace. *)
Definition opened (trace : list action) : nat :=
  length (filter (fun a => is_opened a) trace).

Definition closed (trace : list action) : nat :=
  length (filter (fun a => is_close a) trace).

Definition slept (trace : list action) : Z :=
  foldr (fun a acc => match a with Sleep s => s + acc | _ => acc end) 0 trace.

Definition executed (trace : list action) : list string :=
  omap (fun a => match a with Exec s => Some s | _ => None end) trace.

End IntegrationTest.

(** ** The worker goroutines of the integration test *)

Module TestWorkers.

Import IntegrationTest.

(** The session of one worker: what its [pgx.Connect] returns, and what
    the [n]-th [conn.Exec] on its connection returns. *)
Record Session : Type := {
  session_connect : option Error;
  session_exec : nat → option Error
}.

Definition insertSQL : string :=
  nl +:+ tab +:+ tab +:+ "INSERT INTO" +:+ nl
    +:+ tab +:+ tab +:+ tab +:+ dq +:+ "testTable" +:+ dq
    +:+ " (type_text, type_date, type_boolean, type_json, type_jsonb, type_array)"
    +:+ nl
    +:+ tab +:+ tab +:+ "VALUES ($1, $2, $3, $4, $5, $6);".

Definition updateSQL : string :=
  nl +:+ tab +:+ tab +:+ "UPDATE " +:+ dq +:+ "testTable" +:+ dq
    +:+ " set type_boolean = true " +:+ nl
    +:+ tab +:+ tab +:+ "WHERE ID IN (SELECT ID FROM " +:+ dq +:+ "testTable"
    +:+ dq +:+ " where type_boolean = false LIMIT 1);".

Definition deleteSQL : string :=
  "DELETE FROM " +:+ dq +:+ "testTable" +:+ dq
    +:+ " WHERE ID IN (SELECT ID FROM " +:+ dq +:+ "testTable" +:+ dq
    +:+ " LIMIT 1);".

(** [for _, row := range rows { conn.Exec(insertSQL, ...) }] over the
    [rows] rows left of a batch, after [calls] executions; the second
    component tells whether [t.Fatalf] ended the goroutine. *)
Fixpoint insert_rows (session : Session) (name : string) (rows calls : nat)
  : list action * bool :=
  match rows with
  | O => ([], false)
  | S rows =>
      match session_exec session calls with
      | Some err =>
          ([Exec insertSQL;
            Fatalf (name +:+ ": Could not insert row in source database: "
                      +:+ err)], true)
      | None =>
          let rest := insert_rows session name rows (S calls) in
          (Exec insertSQL :: rest.1, rest.2)
      end
  end.

(** [testRows()] returns three rows. *)
Definition testRows_length : nat := 3.

(** [for i := 0; i < nRows; i++ { rows := testRows(); ... }] with
    [batches] turns left. *)
Fixpoint insert_batches (session : Session) (name : string)
    (batches calls : nat) : list action * bool :=
  match batches with
  | O => ([], false)
  | S batches =>
      let batch := insert_rows session name testRows_length calls in
      if batch.2 then batch
      else
        let rest :=
          insert_batches session name batches (calls + testRows_length) in
        (batch.1 ++ rest.1, rest.2)
  end.

Definition nRows : nat := 50.

(** [func insertTestData(t *testing.T, config pgx.ConnConfig, wg *sync.WaitGroup)];
    [name] is [t.Name()].  The deferred calls run when the function
    returns and when [t.Fatalf] ends the goroutine. *)
Definition insertTestData (session : Session) (name : string) : list action :=
  match session_connect session with
  | Some err =>
      [Connect (Some err);
       Fatalf (name +:+ ": could not connected to source database to insert: "
                 +:+ err);
       Done]
  | None =>
      [Connect None] ++ (insert_batches session name nRows 0).1 ++ [Close; Done]
  end.

(** [func updateTestData(t *testing.T, config pgx.ConnConfig, wg *sync.WaitGroup)] *)
Definition updateTestData (session : Session) (name : string) : list action :=
  match session_connect session with
  | Some err =>
      [Connect (Some err);
       Fatalf (name +:+ ": could not connected to source database to update: "
                 +:+ err);
       Done]
  | None =>
      [Connect None; Exec updateSQL]
        ++ match session_exec session 0 with
           | Some err =>
               [Fatalf (name +:+ ": Could not update row in source database: "
                          +:+ err)]
           | None => []
           end
        ++ [Close; Done]
  end.

(** [func deleteTestData(t *testing.T, config pgx.ConnConfig, wg *sync.WaitGroup)] *)
Definition deleteTestData (session : Session) (name : string) : list action :=
  match session_connect session with
  | Some err =>
      [Connect (Some err);
       Fatalf (name +:+ ": Could not connect to source db to delete data");
       Done]
  | None =>
      [Connect None; Exec deleteSQL]
        ++ match session_exec session 0 with
           | Some err =>
               [Fatalf (name +:+ ": Could not delete row in source database: "
                          +:+ err)]
           | None => []
           end
        ++ [Close; Done]
  end.

(** The trace of the inserts: one execution for every call up to the first
    that fails, and the fatal error after that one. *)
Definition inserts (name : string) (k : nat) (failure : option Error)
  : list action :=
  match failure with
  | None => replicate k (Exec insertSQL)
  | Some err =>
      replicate (S k) (Exec insertSQL)
        ++ [Fatalf (name +:+ ": Could not insert row in source database: "
                      +:+ err)]
  end.

Definition is_done (a : action) : bool :=
  match a with Done => true | _ => false end.

Definition is_fatal (a : action) : bool :=
  match a with Fatalf _ => true | _ => false end.

End TestWorkers.

(** ** The database containers of the integration test *)

Module Containers.

Import Connections.

Record PortMapping : Type := {
  HostPort : string;
  ContainerPort : string
}.

Record ContainerConfig : Type := {
  image : string;
  ports : list PortMapping;
  env : list string;
  cmd : list string
}.

(** What the helpers do to the outside. *)
Inductive action : Type :=
| ListenTCP                            (* net.ListenTCP succeeded *)
| CloseListener                        (* l.Close() *)
| RunContainer (config : ContainerConfig)
| Cleanup (containerID : string).      (* t.Cleanup registers the removal *)

(** What the helpers obtain from outside. *)
Record Env : Type := {
  NewDockerClient : option Error;
  ResolveTCPAddr : option Error;
  net_ListenTCP : Z + Error;       (* the port of the listener, or an error *)
  runContainer : ContainerConfig → string + Error
}.

(** [func getFreePort() (int, error)] *)
Definition getFreePort (e : Env) : list action * (Z * option Error) :=
  match ResolveTCPAddr e with
  | Some err => ([], (0, Some err))
  | None =>
      match net_ListenTCP e with
      | inr err => ([], (0, Some err))
      | inl port => ([ListenTCP; CloseListener], (port, None))
      end
  end.

Definition postgresPort : Z := 5432.

(** The configuration [createDatabaseContainer] runs the container with. *)
Definition containerConfig (version database username password : string)
    (hostPort : Z) : ContainerConfig :=
  {| image := "postgres:" +:+ version;
     ports := [{| HostPort := fmt_d hostPort;
                  ContainerPort := fmt_d postgresPort |}];
     env := ["POSTGRES_DB=" +:+ database;
             "POSTGRES_USER=" +:+ username;
             "POSTGRES_PASSWORD=" +:+ password];
     cmd := ["postgres"; "-cwal_level=logical"; "-cmax_replication_slots=1";
             "-cmax_wal_senders=1"] |}.

(** [func createDatabaseContainer(t, ctx, version, database, username,
    password string) (string, int, error)] *)
Definition createDatabaseContainer (e : Env)
    (version database username password : string)
  : list action * (string * Z * option Error) :=
  match NewDockerClient e with
  | Some err => ([], (EmptyString, 0, Some err))
  | None =>
      let free := getFreePort e in
      match free.2.2 with
      | Some _ =>
          (free.1, (EmptyString, 0, Some "could not determine a free port"%string))
      | None =>
          let config :=
            containerConfig version database username password free.2.1 in
          match runContainer e config with
          | inr err =>
              (free.1 ++ [RunContainer config], (EmptyString, 0, Some err))
          | inl containerID =>
              (free.1 ++ [RunContainer config; Cleanup containerID],
               (containerID, free.2.1, None))
          end
      end
  end.

End Containers.

Module WorkerExamples.

Import TestWorkers.

(** The fifth insert of the worker fails. *)
Definition fifth_fails : Session :=
  {| session_connect := None;
     session_exec := fun n =>
       if decide (n = 4%nat) then Some "deadlock detected"%string else None |}.

End WorkerExamples.
(** * Properties *)

(** ** The ORDER BY clause of the verifier *)

Module VerifierFacts.

Import db Verifier.

Section Fill.

Variable table : Table.

Let cell (column : string) : string :=
  quoted3 (Schema table) (Name table) column.

(** The loop over distinct positions inside the slice stores every column
    at its slot and leaves the other slots alone. *)
Lemma fold_store_spec (entries : list (Z * string)) (arr : list string) :
  NoDup entries.*1 →
  (∀ p c, (p, c) ∈ entries → 1 ≤ p ≤ Z.of_nat (length arr)) →
  ∃ arr',
    fold_left (store_pkColumn table) entries (Some arr) = Some arr' ∧
    length arr' = length arr ∧
    (∀ p c, (p, c) ∈ entries → arr' !! Z.to_nat (p - 1) = Some (cell c)) ∧
    (∀ i : nat, (∀ c, (Z.of_nat i + 1, c) ∉ entries) → arr' !! i = arr !! i).
Proof.
  revert arr. induction entries as [|[p c] entries IH]; intros arr Hnd Hin.
  - exists arr. split; [done|]. split; [done|]. split; [|done].
    intros p c Hel. by apply elem_of_nil in Hel.
  - cbn [fmap list_fmap fst] in Hnd. apply NoDup_cons in Hnd as [Hp Hnd].
    assert (Hrange : 1 ≤ p ≤ Z.of_nat (length arr)) by (apply (Hin p c); left).
    cbn [fold_left store_pkColumn fst snd].
    destruct (decide (0 ≤ p - 1 < Z.of_nat (length arr))) as [_|Hno]; [|lia].
    destruct (IH (<[Z.to_nat (p - 1) := cell c]> arr) Hnd) as (arr' & Hf & Hlen & Hset & Hrest).
    { intros q d Hel. rewrite length_insert. apply (Hin q d). by right. }
    exists arr'. split; [exact Hf|]. rewrite length_insert in Hlen.
    split; [exact Hlen|]. split.
    + intros q d Hel. apply elem_of_cons in Hel as [Heq|Hel]; [|by apply Hset].
      inversion Heq; subst q d.
      rewrite Hrest.
      * apply list_lookup_insert_eq. lia.
      * intros d Hel. apply Hp. apply list_elem_of_fmap. exists (p, d).
        split; [done|]. replace p with (Z.of_nat (Z.to_nat (p - 1)) + 1) at 1 by lia.
        exact Hel.
    + intros i Hfree. rewrite Hrest.
      * apply list_lookup_insert_ne. intros Heq.
        apply (Hfree c). replace (Z.of_nat i + 1) with p by lia. left.
      * intros d Hel. apply (Hfree d). by right.
Qed.

(** For a key whose positions are [1..n], the slice the loop builds is the
    same whatever the order in which the map is ranged over. *)
Lemma fill_pkColumns_positional (entries : list (Z * string)) :
  positional (PKeyFields table) →
  entries ≡ₚ map_to_list (PKeyFields table) →
  ∃ cols,
    fill_pkColumns table entries = Some cols ∧
    length cols = size (PKeyFields table) ∧
    ∀ i : nat, cols !! i = cell <$> (PKeyFields table !! (Z.of_nat i + 1)).
Proof.
  intros Hpos Hperm. unfold fill_pkColumns.
  destruct (fold_store_spec entries
              (replicate (size (PKeyFields table)) EmptyString))
    as (cols & Hf & Hlen & Hset & Hrest).
  - rewrite Hperm. apply NoDup_fst_map_to_list.
  - intros p c Hel. rewrite length_replicate. apply Hpos.
    rewrite Hperm in Hel. apply elem_of_map_to_list in Hel. by exists c.
  - rewrite length_replicate in Hlen.
    exists cols. split; [exact Hf|]. split; [exact Hlen|].
    intros i. destruct (PKeyFields table !! (Z.of_nat i + 1)) as [c|] eqn:Hm.
    + assert (Hel : (Z.of_nat i + 1, c) ∈ entries)
        by (rewrite Hperm; by apply elem_of_map_to_list).
      specialize (Hset _ _ Hel).
      replace (Z.to_nat (Z.of_nat i + 1 - 1)) with i in Hset by lia. exact Hset.
    + cbn. apply lookup_ge_None. rewrite Hlen.
      destruct (decide (i < size (PKeyFields table))%nat) as [Hlt|]; [|lia].
      assert (Hs : is_Some (PKeyFields table !! (Z.of_nat i + 1)))
        by (apply Hpos; lia).
      rewrite Hm in Hs. by destruct Hs.
Qed.

End Fill.

(** The map built from an ordered list of columns has the positions
    [p..p+n-1]. *)
Lemma pkey_from_lookup (cols : list string) (p q : Z) :
  pkey_from p cols !! q =
    if decide (p ≤ q) then cols !! Z.to_nat (q - p) else None.
Proof.
  revert p. induction cols as [|c cols IH]; intros p; cbn [pkey_from].
  - rewrite lookup_empty. by case_decide.
  - destruct (decide (p = q)) as [->|Hne].
    + rewrite lookup_insert_eq. case_decide; [|lia].
      by replace (q - q) with 0 by lia.
    + rewrite lookup_insert_ne by done. rewrite IH.
      repeat case_decide; try lia; [|done].
      replace (Z.to_nat (q - p)) with (S (Z.to_nat (q - (p + 1)))) by lia. done.
Qed.

Lemma pkey_from_size (cols : list string) (p : Z) :
  size (pkey_from p cols) = length cols.
Proof.
  revert p. induction cols as [|c cols IH]; intros p; cbn [pkey_from length].
  - apply map_size_empty.
  - rewrite map_size_insert_None, IH; [done|].
    rewrite pkey_from_lookup. case_decide; [lia|done].
Qed.

Lemma pkey_of_list_positional (cols : list string) :
  positional (pkey_of_list cols).
Proof.
  intros p. unfold pkey_of_list. rewrite pkey_from_size, pkey_from_lookup.
  case_decide.
  - rewrite lookup_lt_is_Some. lia.
  - split; [by intros [? ?]|lia].
Qed.

End VerifierFacts.

(** ** The loop of the verifier *)

Module VerifyLoop.

Import db Verifier VerifierFacts.

(** One iteration of the loop, case by case. *)
Ltac iteration env table :=
  cbn [verify_tables];
  destruct (decide (size (PKeyFields table) < 1)%nat) as [?Hsize|?Hsize];
  [|destruct (pkColumns table) as [?cols|] eqn:?Hcols; cbn zeta;
    [destruct (source_scan env _) as [?s [?e|]] eqn:?Hsrc;
     [|destruct (target_scan env _) as [?t [?e|]] eqn:?Htgt;
       [|destruct (decide (_ ≠ _)) as [?Hne|?Heq]]]|]];
  cbn [fst snd].

(** Case analysis on membership in a literal trace. *)
Ltac members H :=
  rewrite ?elem_of_cons, ?elem_of_nil in H;
  repeat match goal with
         | H : _ ∨ _ |- _ => destruct H as [H|H]
         | H : False |- _ => destruct H
         | H : QuerySource _ = _ |- _ => inversion H; clear H; subst
         | H : QueryTarget _ = _ |- _ => inversion H; clear H; subst
         end.

Lemma verify_tables_passes (env : Env) (table : Table) (rest : list Table) :
  passes env table →
  ∃ cols,
    pkColumns table = Some cols ∧
    verify_tables env (table :: rest) =
      (log_verifying table :: QuerySource (checksum_sql table cols)
         :: QueryTarget (checksum_sql table cols) :: (verify_tables env rest).1,
       (verify_tables env rest).2).
Proof.
  intros (Hsize & cols & checksum & Hcols & Hsrc & Htgt).
  exists cols. split; [exact Hcols|].
  cbn [verify_tables]. rewrite Hcols. cbn zeta. rewrite Hsrc, Htgt.
  destruct (decide (size (PKeyFields table) < 1)%nat); [lia|].
  by destruct (decide (checksum ≠ checksum)).
Qed.

(** Tables that pass are gone through; the loop goes on with the rest. *)
Lemma verify_tables_app (env : Env) (pre rest : list Table) :
  Forall (passes env) pre →
  verify_tables env (pre ++ rest) =
    ((verify_tables env pre).1 ++ (verify_tables env rest).1,
     (verify_tables env rest).2) ∧
  (verify_tables env pre).2 = Returns None.
Proof.
  induction 1 as [|table pre Hp _ [IH1 IH2]].
  - cbn. by destruct (verify_tables env rest).
  - destruct (verify_tables_passes env table pre Hp) as (cols & Hcols & ->).
    cbn [app].
    destruct (verify_tables_passes env table (pre ++ rest) Hp)
      as (cols' & Hcols' & ->).
    rewrite Hcols in Hcols'; inversion Hcols'; subst cols'.
    rewrite IH1. done.
Qed.

Lemma verify_tables_nil_inv (env : Env) (tables : list Table) :
  (verify_tables env tables).2 = Returns None → Forall (passes env) tables.
Proof.
  induction tables as [|table rest IH]; [constructor|].
  iteration env table; try done.
  intros Hr. constructor; [|by apply IH].
  split; [lia|]. exists cols, s. split; [done|]. split; [done|].
  rewrite Htgt. f_equal. symmetry. by apply dec_stable.
Qed.

(** Every query of the loop is the checksum query of a table that has a
    primary key. *)
Lemma verify_tables_queries (env : Env) (tables : list Table) (sql : string) :
  QuerySource sql ∈ (verify_tables env tables).1 ∨
  QueryTarget sql ∈ (verify_tables env tables).1 →
  ∃ table cols,
    table ∈ tables ∧ (1 ≤ size (PKeyFields table))%nat ∧
    pkColumns table = Some cols ∧ sql = checksum_sql table cols.
Proof.
  induction tables as [|table rest IH]; cbn [verify_tables fst].
  - intros [Hel|Hel]; by apply elem_of_nil in Hel.
  - assert (Hhere : ∀ cols, pkColumns table = Some cols →
              ¬ (size (PKeyFields table) < 1)%nat →
              ∃ table' cols', table' ∈ table :: rest ∧
                (1 ≤ size (PKeyFields table'))%nat ∧
                pkColumns table' = Some cols' ∧
                checksum_sql table cols = checksum_sql table' cols').
    { intros cols Hc Hs. exists table, cols. split; [left|]. split; [lia|done]. }
    assert (Hthere : (QuerySource sql ∈ (verify_tables env rest).1 ∨
                      QueryTarget sql ∈ (verify_tables env rest).1) →
              ∃ table' cols', table' ∈ table :: rest ∧
                (1 ≤ size (PKeyFields table'))%nat ∧
                pkColumns table' = Some cols' ∧ sql = checksum_sql table' cols').
    { intros Hel. destruct (IH Hel) as (table' & cols' & ? & ?).
      exists table', cols'. split; [by right|done]. }
    iteration env table; intros Hel; members Hel;
      try (by eapply Hhere); try (apply Hthere; by auto).
Qed.

(** The target is asked right after the source, with the same text. *)
Lemma verify_tables_same_text (env : Env) (tables : list Table) (sql : string) :
  QueryTarget sql ∈ (verify_tables env tables).1 →
  ∃ l1 l2,
    (verify_tables env tables).1 = l1 ++ QuerySource sql :: QueryTarget sql :: l2.
Proof.
  induction tables as [|table rest IH]; cbn [verify_tables fst].
  - intros Hel; by apply elem_of_nil in Hel.
  - iteration env table; intros Hel; members Hel;
      try (by exists [log_verifying table], []).
    + by exists [log_verifying table], (verify_tables env rest).1.
    + destruct (IH Hel) as (l1 & l2 & ->).
      by exists (log_verifying table :: QuerySource (checksum_sql table cols)
                   :: QueryTarget (checksum_sql table cols) :: l1), l2.
Qed.

(** When the preamble succeeds, [Verify] is the loop over the tables
    selected. *)
Lemma Verify_selects (env : Env) (schemas includeTables excludeTables : list string)
    (tables : list Table) :
  selects env schemas includeTables excludeTables tables →
  Verify env schemas includeTables excludeTables = verify_tables env tables.
Proof.
  intros (H1 & H2 & H3 & H4 & H5). unfold Verify.
  by rewrite H1, H2, H3, H4, H5.
Qed.

End VerifyLoop.
(** ** The verifier: the slice of key columns and the order of a run *)
(** ** Further properties of the verifier *)

Module VerifierObservationFacts.

Import db Verifier VerifierFacts VerifyLoop VerifierObservations.

(** The loop over the entries gets through only if every position is
    inside the slice. *)
Lemma fold_store_in_range (table : Table) (entries : list (Z * string))
    (arr arr' : list string) :
  fold_left (store_pkColumn table) entries (Some arr) = Some arr' →
  ∀ p c, (p, c) ∈ entries → 1 ≤ p ≤ Z.of_nat (length arr).
Proof.
  revert arr. induction entries as [|[q d] entries IH]; intros arr Hfold p c Hel.
  - by apply elem_of_nil in Hel.
  - cbn [fold_left store_pkColumn fst snd] in Hfold.
    destruct (decide (0 ≤ q - 1 < Z.of_nat (length arr))) as [Hq|Hq].
    + apply elem_of_cons in Hel as [[= -> ->]|Hel]; [lia|].
      specialize (IH _ Hfold p c Hel). by rewrite length_insert in IH.
    + exfalso. clear -Hfold. induction entries as [|e entries IH]; [done|].
      by apply IH.
Qed.

Lemma fill_pkColumns_in_range (table : Table) (entries : list (Z * string)) :
  entries ≡ₚ map_to_list (PKeyFields table) →
  is_Some (fill_pkColumns table entries) ↔ in_range (PKeyFields table).
Proof.
  intros Hperm. unfold fill_pkColumns. split.
  - intros [cols Hfold] p c Hp.
    pose proof (fold_store_in_range _ _ _ _ Hfold p c) as Hr.
    rewrite length_replicate in Hr. apply Hr. rewrite Hperm.
    by apply elem_of_map_to_list.
  - intros Hrange.
    destruct (fold_store_spec table entries
                (replicate (size (PKeyFields table)) EmptyString))
      as (cols & Hf & _).
    + rewrite Hperm. apply NoDup_fst_map_to_list.
    + intros p c Hel. rewrite length_replicate. apply (Hrange p c).
      rewrite Hperm in Hel. by apply elem_of_map_to_list in Hel.
    + by exists cols.
Qed.

(** Where the loop panics. *)
Lemma verify_tables_panics (env : Env) (tables : list Table) :
  (verify_tables env tables).2 = Panics →
  ∃ pre table post,
    tables = pre ++ table :: post ∧ Forall (passes env) pre ∧
    (1 ≤ size (PKeyFields table))%nat ∧ pkColumns table = None ∧
    (verify_tables env tables).1 =
      (verify_tables env pre).1 ++ [log_verifying table].
Proof.
  induction tables as [|table rest IH]; [done|].
  iteration env table; try done.
  - intros Hp.
    destruct (IH Hp) as (pre & table' & post & -> & Hpre & Hs & Hc & Ht).
    assert (Hpass : passes env table).
    { split; [lia|]. exists cols, s. split; [done|]. split; [done|].
      rewrite Htgt. f_equal. symmetry. by apply dec_stable. }
    exists (table :: pre), table', post. split; [done|].
    split; [by constructor|]. split; [done|]. split; [done|].
    destruct (verify_tables_passes env table pre Hpass) as (cols' & Hc' & ->).
    rewrite Hcols in Hc'. injection Hc' as <-. cbn [fst app]. by rewrite Ht.
  - intros _. exists [], table, rest. split; [done|]. split; [constructor|].
    split; [lia|]. done.
Qed.

(** The tables are gone through in their order, each at most once, with at
    most two queries for each. *)
Lemma verify_tables_order (env : Env) (tables : list Table) :
  ∃ n,
    (n ≤ length tables)%nat ∧
    filter (λ e, is_log e) (verify_tables env tables).1 =
      log_verifying <$> take n tables ∧
    (length (filter (λ e, is_query e) (verify_tables env tables).1) ≤ 2 * n)%nat ∧
    ((verify_tables env tables).2 = Returns None → n = length tables).
Proof.
  induction tables as [|table rest (n & Hn & Hlogs & Hq & Hall)].
  - exists 0%nat. by cbn.
  - assert (Hone : log_verifying <$> take 1 (table :: rest) =
                     [log_verifying table]).
    { change (take 1 (table :: rest)) with (table :: take 0 rest).
      by rewrite take_0. }
    iteration env table;
      try (exists 1%nat; rewrite Hone; split; [simpl; lia|];
           split; [reflexivity|]; split; [simpl; lia|done]).
    exists (S n). simpl length. cbn [take fmap list_fmap]. split; [lia|].
    split; [|split].
    + rewrite <- Hlogs. reflexivity.
    + change (filter (λ e, is_query e) (log_verifying table :: ?a :: ?b :: ?l))
        with (a :: b :: filter (λ e, is_query e) l).
      simpl length. lia.
    + intros Hr. by rewrite (Hall Hr).
Qed.

End VerifierObservationFacts.


Module VerifyExampleFacts.

Import db Verifier VerifyExamples.

Lemma users_passes (tables : list Table) : passes (env tables) users.
Proof.
  split; [vm_compute; lia|].
  exists (default [] (pkColumns users)), "9e107d9d372bb6826bd81d3542a419d6".
  split; [by vm_compute|]. split; [done|]. by vm_compute.
Qed.

Lemma selects_env (tables : list Table) :
  selects (env tables) ["public"] [] [] tables.
Proof. by repeat split. Qed.

(** Outside the positions [1..n] the store into the slice is out of
    range: [Verify] panics at that table. *)
Lemma misplaced_panics (tables : list Table) :
  Verify (env (misplaced :: tables)) ["public"] [] [] =
    ([log_verifying misplaced], Panics).
Proof. reflexivity. Qed.

End VerifyExampleFacts.


(** ** The verifier: statements of the design document *)

Module VerifyClaims.

Import db Verifier VerifierFacts VerifyLoop.
Import VerifierObservations VerifierObservationFacts.

(** C4.  For the tables selected for verification, [Verify] first checks
    that the table has a primary-key field: at the first table without one
    (every table before it having passed) it returns the error that names
    this table, and the last thing it has done is the log entry of that
    table, so no checksum query was issued for it; and every checksum query
    [Verify] ever issues is the query of a selected table with at least one
    primary-key field. *)
Theorem Verify_requires_primary_key
    (env : Env) (schemas includeTables excludeTables : list string)
    (tables : list Table) :
  selects env schemas includeTables excludeTables tables →
  (∀ pre table post,
      tables = pre ++ table :: post →
      Forall (passes env) pre →
      size (PKeyFields table) = 0%nat →
      Verify env schemas includeTables excludeTables =
        ((verify_tables env pre).1 ++ [log_verifying table],
         Returns (Some (err_no_pkey table)))) ∧
  (∀ sql,
      QuerySource sql ∈ (Verify env schemas includeTables excludeTables).1 ∨
      QueryTarget sql ∈ (Verify env schemas includeTables excludeTables).1 →
      ∃ table cols,
        table ∈ tables ∧ (1 ≤ size (PKeyFields table))%nat ∧
        pkColumns table = Some cols ∧ sql = checksum_sql table cols).
Proof.
  intros Hsel. rewrite (Verify_selects _ _ _ _ _ Hsel). split.
  - intros pre table post -> Hpre Hsize.
    destruct (verify_tables_app env pre (table :: post) Hpre) as [-> _].
    cbn [verify_tables].
    destruct (decide (size (PKeyFields table) < 1)%nat); [done|lia].
  - apply verify_tables_queries.
Qed.

Lemma Verify_requires_primary_key_witness :
  Verify (VerifyExamples.env
            [VerifyExamples.users; VerifyExamples.audit_log;
             VerifyExamples.order_lines]) ["public"] [] [] =
    ([log_verifying VerifyExamples.users;
      QuerySource (VerifyExamples.sql_of VerifyExamples.users);
      QueryTarget (VerifyExamples.sql_of VerifyExamples.users);
      log_verifying VerifyExamples.audit_log],
     Returns (Some (err_no_pkey VerifyExamples.audit_log))).
Proof.
  destruct (Verify_requires_primary_key _ _ _ _ _
              (VerifyExampleFacts.selects_env
                 [VerifyExamples.users; VerifyExamples.audit_log;
                  VerifyExamples.order_lines])) as [Hfirst _].
  rewrite (Hfirst [VerifyExamples.users] VerifyExamples.audit_log
             [VerifyExamples.order_lines]).
  - vm_compute. reflexivity.
  - reflexivity.
  - constructor; [apply VerifyExampleFacts.users_passes|constructor].
  - reflexivity.
Defined.

(** C5.  For the tables selected, [Verify] sends the same checksum query
    text to the source and then to the target and compares the two answers
    as strings: it returns nil exactly when every selected table has a
    primary key and both databases answer its query with equal checksums;
    at the first table whose two checksums differ (every table before it
    having passed) it returns the error that names this table. *)
Theorem Verify_compares_checksums
    (env : Env) (schemas includeTables excludeTables : list string)
    (tables : list Table) :
  selects env schemas includeTables excludeTables tables →
  ((Verify env schemas includeTables excludeTables).2 = Returns None ↔
     Forall (passes env) tables) ∧
  (∀ pre table post cols sourceChecksum targetChecksum,
      tables = pre ++ table :: post →
      Forall (passes env) pre →
      (1 ≤ size (PKeyFields table))%nat →
      pkColumns table = Some cols →
      source_scan env (checksum_sql table cols) = (sourceChecksum, None) →
      target_scan env (checksum_sql table cols) = (targetChecksum, None) →
      sourceChecksum ≠ targetChecksum →
      Verify env schemas includeTables excludeTables =
        ((verify_tables env pre).1 ++
           [log_verifying table; QuerySource (checksum_sql table cols);
            QueryTarget (checksum_sql table cols)],
         Returns (Some (err_differ table)))) ∧
  (∀ sql,
      QueryTarget sql ∈ (Verify env schemas includeTables excludeTables).1 →
      ∃ l1 l2,
        (Verify env schemas includeTables excludeTables).1 =
          l1 ++ QuerySource sql :: QueryTarget sql :: l2).
Proof.
  intros Hsel. rewrite (Verify_selects _ _ _ _ _ Hsel). split; [split|split].
  - apply verify_tables_nil_inv.
  - intros Hall. destruct (verify_tables_app env tables [] Hall) as [_ Hr].
    exact Hr.
  - intros pre table post cols s t -> Hpre Hsize Hcols Hsrc Htgt Hne.
    destruct (verify_tables_app env pre (table :: post) Hpre) as [-> _].
    cbn [verify_tables]. rewrite Hcols. cbn zeta. rewrite Hsrc, Htgt.
    destruct (decide (size (PKeyFields table) < 1)%nat); [lia|].
    destruct (decide (s ≠ t)); done.
  - apply verify_tables_same_text.
Qed.

Lemma Verify_compares_checksums_witness :
  Verify (VerifyExamples.env
            [VerifyExamples.users; VerifyExamples.order_lines]) ["public"] [] [] =
    ([log_verifying VerifyExamples.users;
      QuerySource (VerifyExamples.sql_of VerifyExamples.users);
      QueryTarget (VerifyExamples.sql_of VerifyExamples.users);
      log_verifying VerifyExamples.order_lines;
      QuerySource (VerifyExamples.sql_of VerifyExamples.order_lines);
      QueryTarget (VerifyExamples.sql_of VerifyExamples.order_lines)],
     Returns (Some (err_differ VerifyExamples.order_lines))).
Proof.
  destruct (Verify_compares_checksums _ _ _ _ _
              (VerifyExampleFacts.selects_env
                 [VerifyExamples.users; VerifyExamples.order_lines]))
    as (_ & Hdiffer & _).
  rewrite (Hdiffer [VerifyExamples.users] VerifyExamples.order_lines []
             (default [] (pkColumns VerifyExamples.order_lines))
             "9e107d9d372bb6826bd81d3542a419d6"
             "e4d909c290d0fb1ca068ffaddf22cbd0").
  - vm_compute. reflexivity.
  - reflexivity.
  - constructor; [apply VerifyExampleFacts.users_passes|constructor].
  - vm_compute. lia.
  - vm_compute. reflexivity.
  - reflexivity.
  - vm_compute. reflexivity.
  - discriminate.
Defined.

(** C6, as the design document states it, fails: a table may have one
    primary-key field or more and yet a key position outside [1..n], for
    which the store into slot [p-1] of the slice of length [n] is out of
    range.  At the position 0, and at the positions 1 and 3 of a key of two
    columns, no ORDER BY clause is built and [Verify] panics at the table,
    after its log entry and before any query. *)
Lemma key_position_outside_the_slice_panics :
  ((1 ≤ size (PKeyFields VerifyExamples.misplaced))%nat ∧
   pkColumns VerifyExamples.misplaced = None ∧
   Verify (VerifyExamples.env [VerifyExamples.misplaced]) ["public"] [] [] =
     ([log_verifying VerifyExamples.misplaced], Panics)) ∧
  ((1 ≤ size (PKeyFields VerifyExamples.gapped))%nat ∧
   pkColumns VerifyExamples.gapped = None ∧
   (∀ entries, entries ≡ₚ map_to_list (PKeyFields VerifyExamples.gapped) →
      fill_pkColumns VerifyExamples.gapped entries = None) ∧
   Verify (VerifyExamples.env [VerifyExamples.users; VerifyExamples.gapped])
     ["public"] [] [] =
     ([log_verifying VerifyExamples.users;
       QuerySource (VerifyExamples.sql_of VerifyExamples.users);
       QueryTarget (VerifyExamples.sql_of VerifyExamples.users);
       log_verifying VerifyExamples.gapped], Panics)).
Proof.
  split.
  - split; [vm_compute; lia|]. split; reflexivity.
  - split; [vm_compute; lia|]. split; [reflexivity|]. split; [|reflexivity].
    intros entries Hperm.
    destruct (fill_pkColumns VerifyExamples.gapped entries) as [cols|] eqn:Hfill;
      [|done].
    exfalso.
    assert (Hsize : size (PKeyFields VerifyExamples.gapped) = 2%nat)
      by (vm_compute; reflexivity).
    pose proof (proj1 (fill_pkColumns_in_range VerifyExamples.gapped entries
                         Hperm) (mk_is_Some _ _ Hfill) 3 "entry"%string
                  ltac:(vm_compute; reflexivity)) as Hrange.
    rewrite Hsize in Hrange. lia.
Qed.

(** C6, amended.  For a table with at least one primary-key field whose positions
    are [1..n], building the ORDER BY clause is well defined: the loop
    stores the column at position [p] into slot [p-1] of a slice of length
    [n] and never leaves the slice, whatever the order in which the map is
    ranged over; the clause lists every primary-key column, in the order of
    their positions, and the checksum query [Verify] issues for the table
    contains it. *)
Theorem Verify_orders_by_full_primary_key (table : Table) :
  (1 ≤ size (PKeyFields table))%nat →
  positional (PKeyFields table) →
  ∃ cols,
    pkColumns table = Some cols ∧
    (∀ entries, entries ≡ₚ map_to_list (PKeyFields table) →
       fill_pkColumns table entries = Some cols) ∧
    length cols = size (PKeyFields table) ∧
    (∀ p column, PKeyFields table !! p = Some column →
       cols !! Z.to_nat (p - 1) =
         Some (quoted3 (Schema table) (Name table) column)) ∧
    (∀ i cell, cols !! i = Some cell →
       ∃ column, PKeyFields table !! (Z.of_nat i + 1) = Some column ∧
                 cell = quoted3 (Schema table) (Name table) column) ∧
    checksum_sql table cols =
      "SELECT pg_md5_hashagg(md5(CAST((" +:+ quoted2 (Schema table) (Name table)
        +:+ ".*)AS TEXT))"
        +:+ ("ORDER BY " +:+ String.concat "," cols)
        +:+ ") FROM " +:+ quoted2 (Schema table) (Name table) ∧
    (∀ env rest, ∃ tr r,
       verify_tables env (table :: rest) =
         (log_verifying table :: QuerySource (checksum_sql table cols) :: tr, r)).
Proof.
  intros Hsize Hpos.
  destruct (fill_pkColumns_positional table (map_to_list (PKeyFields table))
              Hpos (reflexivity _)) as (cols & Hfill & Hlen & Hcols).
  exists cols. split; [exact Hfill|]. split.
  { intros entries Hperm.
    destruct (fill_pkColumns_positional table entries Hpos Hperm)
      as (cols' & -> & Hlen' & Hcols').
    f_equal. apply list_eq. intros i. by rewrite Hcols, Hcols'. }
  split; [exact Hlen|]. split.
  { intros p column Hp.
    assert (Hrange : 1 ≤ p ≤ Z.of_nat (size (PKeyFields table)))
      by (apply Hpos; by exists column).
    rewrite Hcols. replace (Z.of_nat (Z.to_nat (p - 1)) + 1) with p by lia.
    by rewrite Hp. }
  split.
  { intros i cell Hi. rewrite Hcols in Hi.
    destruct (PKeyFields table !! (Z.of_nat i + 1)) as [column|]; [|done].
    exists column. split; [done|]. by inversion Hi. }
  split; [reflexivity|].
  intros env rest. cbn [verify_tables].
  change (fill_pkColumns table (map_to_list (PKeyFields table)))
    with (pkColumns table) in Hfill.
  rewrite Hfill. cbn zeta.
  destruct (decide (size (PKeyFields table) < 1)%nat); [lia|].
  destruct (source_scan env _) as [s [e|]]; [by eexists _, _|].
  destruct (target_scan env _) as [t [e|]]; [by eexists _, _|].
  destruct (decide (s ≠ t)); by eexists _, _.
Qed.

Lemma Verify_orders_by_full_primary_key_witness :
  pkColumns VerifyExamples.order_lines =
    Some [quoted3 "public" "order_lines" "order_id";
          quoted3 "public" "order_lines" "line"].
Proof.
  destruct (Verify_orders_by_full_primary_key VerifyExamples.order_lines)
    as (cols & Hcols & _).
  - vm_compute. lia.
  - apply pkey_of_list_positional.
  - rewrite Hcols. vm_compute in Hcols. symmetry. exact Hcols.
Defined.

End VerifyClaims.

(** ** The applier, statement by statement *)

Module ApplierFacts.

Import Applier.

Section Facts.

Context {W : Type} `{World W}.

Lemma processDelete_eq (change : Changeset) (st : state W) :
  processDelete change st =
    let pk := (getPrimaryKeyForChange (world st) change).1 in
    let err := (getPrimaryKeyForChange (world st) change).2 in
    {| world := (deleteRow (world st) change pk).1;
       shutdownCh := shutdownCh st;
       trace := trace st
         ++ logged err (no_primary_key "DELETE" change)
         ++ [CallDeleteRow change pk]
         ++ logged (deleteRow (world st) change pk).2
              (failed_statement "DELETE" change pk) |}.
Proof.
  unfold processDelete.
  destruct (getPrimaryKeyForChange (world st) change) as [pk [e|]];
    cbn [fst snd log_if emit world];
    destruct (deleteRow (world st) change pk) as [w [e'|]];
    unfold log_if, emit, set_world;
    cbn [fst snd world trace shutdownCh logged app];
    by rewrite <- ?app_assoc, ?app_nil_r.
Qed.

Lemma processUpdate_eq (change : Changeset) (st : state W) :
  processUpdate change st =
    let pk := (getPrimaryKeyForChange (world st) change).1 in
    let err := (getPrimaryKeyForChange (world st) change).2 in
    {| world := (updateRow (world st) change pk).1;
       shutdownCh := shutdownCh st;
       trace := trace st
         ++ logged err (no_primary_key "UPDATE" change)
         ++ [CallUpdateRow change pk]
         ++ logged (updateRow (world st) change pk).2
              (failed_statement "UPDATE" change pk) |}.
Proof.
  unfold processUpdate.
  destruct (getPrimaryKeyForChange (world st) change) as [pk [e|]];
    cbn [fst snd log_if emit world];
    destruct (updateRow (world st) change pk) as [w [e'|]];
    unfold log_if, emit, set_world;
    cbn [fst snd world trace shutdownCh logged app];
    by rewrite <- ?app_assoc, ?app_nil_r.
Qed.

Lemma processInsert_eq (change : Changeset) (st : state W) :
  processInsert change st =
    {| world := (insertRow (world st) change).1;
       shutdownCh := shutdownCh st;
       trace := trace st
         ++ [CallInsertRow change]
         ++ logged (insertRow (world st) change).2 (failed_insert change) |}.
Proof.
  unfold processInsert. cbn [emit world].
  destruct (insertRow (world st) change) as [w [e'|]];
    unfold log_if, emit, set_world;
    cbn [fst snd world trace shutdownCh logged app];
    by rewrite <- ?app_assoc, ?app_nil_r.
Qed.

End Facts.

End ApplierFacts.

(** ** The loop of the coordinator *)

Module RunFacts.

Import Config Applier ApplierFacts Coordinator.

Section Facts.

Context {W : Type} `{World W}.

(** Applying a change appends actions of that change to the trace and
    leaves the shutdown channel alone. *)
Lemma processChange_frame (change : Changeset) (st : state W) :
  ∃ acts,
    trace (processChange change st) = trace st ++ acts ∧
    shutdownCh (processChange change st) = shutdownCh st ∧
    Forall (applies change) acts.
Proof.
  unfold processChange. destruct (Kind change).
  - rewrite processInsert_eq. eexists. split; [reflexivity|]. split; [done|].
    destruct (insertRow (world st) change).2; repeat constructor.
  - rewrite processUpdate_eq. eexists. split; [reflexivity|]. split; [done|].
    cbn zeta.
    destruct (getPrimaryKeyForChange (world st) change).2;
      destruct (updateRow (world st) change _).2; repeat constructor.
  - rewrite processDelete_eq. eexists. split; [reflexivity|]. split; [done|].
    cbn zeta.
    destruct (getPrimaryKeyForChange (world st) change).2;
      destruct (deleteRow (world st) change _).2; repeat constructor.
  - exists []. by rewrite app_nil_r.
Qed.


(** The three ways the check of the drain mode ends. *)
Lemma drain_check_cases (config : AxonConfig) (change : Changeset)
    (continue : state W → state W * status) (st : state W) :
  (∃ st', drain_check config change continue st = continue st' ∧
          ∃ acts, trace st' = trace st ++ acts ∧ Forall (λ a, statement_of a = None) acts) ∨
  (ShutdownAfterLastChangeset config = true ∧
   ∃ st' err, drain_check config change continue st =
     (st', Returned (Some (wrap "failed to determine if the sync is complete" err))) ∧
     ∃ acts, trace st' = trace st ++ acts ∧ Forall (λ a, statement_of a = None) acts) ∨
  (ShutdownAfterLastChangeset config = true ∧
   ∃ st', drain_check config change continue st = (st', BlockedInShutdown) ∧
     ∃ acts, trace st' = trace st ++ acts ∧ Forall (λ a, statement_of a = None) acts).
Proof.
  unfold drain_check.
  destruct (ShutdownAfterLastChangeset config).
  - destruct (IsLatestChangeSet _ _) as [[|] [err|]]; cbn [emit world].
    + right. left. split; [done|]. eexists _, err. split; [reflexivity|].
      eexists. split; [reflexivity|]. by repeat constructor.
    + unfold Shutdown. cbn [shutdownCh emit trace world].
      destruct (decide (shutdownCh st < 1)%nat).
      * left. eexists. split; [reflexivity|]. cbn [trace].
        exists [CallIsLatestChangeSet (ID change); log_sync_complete; SendShutdown].
        split; [by rewrite <- !app_assoc|]. by repeat constructor.
      * right. right. split; [done|]. eexists. split; [reflexivity|].
        unfold emit. cbn [trace].
        exists [CallIsLatestChangeSet (ID change); log_sync_complete].
        split; [by rewrite <- !app_assoc|]. by repeat constructor.
    + right. left. split; [done|]. eexists _, err. split; [reflexivity|].
      eexists. split; [reflexivity|]. by repeat constructor.
    + left. eexists. split; [reflexivity|].
      eexists. split; [reflexivity|]. by repeat constructor.
  - left. exists st. split; [done|]. exists []. by rewrite app_nil_r.
Qed.

Lemma applies_targets (change : Changeset) (a : action) :
  applies change a → targets (Schema change) a.
Proof. intros Ha c Hc. destruct a; cbn in *; by simplify_eq. Qed.

Lemma override_schema_Schema (config : AxonConfig) (change : Changeset) :
  TargetDBSchema config ≠ EmptyString →
  Schema (override_schema config change) = TargetDBSchema config.
Proof. intros Hne. unfold override_schema. by case_decide. Qed.

(** The loop only adds to the trace: actions of applying the changes
    received, after the override of their schema, and actions that are no
    statements. *)
Lemma run_loop_actions (config : AxonConfig) (P : action → Prop)
    (schedule : list (step W)) (st : state W) :
  (∀ a, statement_of a = None → P a) →
  (∀ change a, applies (override_schema config change) a → P a) →
  ∃ acts,
    trace (run_loop config schedule st).1 = trace st ++ acts ∧ Forall P acts.
Proof.
  intros Hother Happlies. revert st.
  induction schedule as [|[|f| |err|change] schedule IH]; intros st;
    cbn [run_loop].
  - exists []. by rewrite app_nil_r.
  - apply (IH (relay_signal st)).
  - apply (IH (set_world (f (world st)) st)).
  - case_decide; [apply IH|]. cbn [fst shut_down trace].
    eexists. split; [reflexivity|]. repeat constructor; by apply Hother.
  - exists []. by rewrite app_nil_r.
  - destruct (processChange_frame (override_schema config change) st)
      as (acts1 & Ht1 & _ & Ha1).
    assert (Hp1 : Forall P acts1).
    { eapply Forall_impl; [exact Ha1|]. intros a. apply Happlies. }
    destruct (drain_check_cases config (override_schema config change)
                (run_loop config schedule)
                (processChange (override_schema config change) st))
      as [(st' & -> & acts2 & Ht2 & Ha2)
         |[(_ & st' & err & -> & acts2 & Ht2 & Ha2)
          |(_ & st' & -> & acts2 & Ht2 & Ha2)]];
      (assert (Hp2 : Forall P acts2)
         by (eapply Forall_impl; [exact Ha2|]; exact Hother)).
    + destruct (IH st') as (acts3 & -> & Ha3). rewrite Ht2, Ht1.
      exists (acts1 ++ acts2 ++ acts3). rewrite <- !app_assoc.
      split; [done|]. by rewrite !Forall_app.
    + cbn [fst]. rewrite Ht2, Ht1. exists (acts1 ++ acts2).
      rewrite <- !app_assoc. split; [done|]. by rewrite !Forall_app.
    + cbn [fst]. rewrite Ht2, Ht1. exists (acts1 ++ acts2).
      rewrite <- !app_assoc. split; [done|]. by rewrite !Forall_app.
Qed.

Lemma run_loop_extends (config : AxonConfig) (schedule : list (step W))
    (st : state W) :
  ∃ acts, trace (run_loop config schedule st).1 = trace st ++ acts.
Proof.
  destruct (run_loop_actions config (λ _, True) schedule st)
    as (acts & Ht & _); [done|done|]. by exists acts.
Qed.

(** With one schema for every change after the override, every statement
    the loop adds is one against that schema. *)
Lemma run_loop_statements (config : AxonConfig) (schema : string)
    (schedule : list (step W)) (st : state W) :
  (∀ change, Schema (override_schema config change) = schema) →
  ∃ acts,
    trace (run_loop config schedule st).1 = trace st ++ acts ∧
    Forall (targets schema) acts.
Proof.
  intros Hschema. apply run_loop_actions.
  - intros a Ha c Hc. congruence.
  - intros change a Ha. rewrite <- (Hschema change). by apply applies_targets.
Qed.

(** Why the loop returns. *)
Lemma run_loop_returned (config : AxonConfig) (schedule : list (step W))
    (st st' : state W) (r : option Error) :
  run_loop config schedule st = (st', Returned r) →
  (r = None ∧ RecvShutdown ∈ schedule) ∨
  (∃ err, r = Some (wrap "listener received an error" err) ∧
          RecvErr err ∈ schedule) ∨
  (ShutdownAfterLastChangeset config = true ∧
   ∃ change err,
     RecvChange change ∈ schedule ∧
     r = Some (wrap "failed to determine if the sync is complete" err)).
Proof.
  revert st.
  induction schedule as [|[|f| |err|change] schedule IH]; intros st;
    cbn [run_loop].
  - done.
  - intros Hr. destruct (IH _ Hr) as [[? ?]|[(e & ? & ?)|(? & c & e & ? & ?)]].
    + left. split; [done|by right].
    + right. left. exists e. split; [done|by right].
    + right. right. split; [done|]. exists c, e. split; [by right|done].
  - intros Hr. destruct (IH _ Hr) as [[? ?]|[(e & ? & ?)|(? & c & e & ? & ?)]].
    + left. split; [done|by right].
    + right. left. exists e. split; [done|by right].
    + right. right. split; [done|]. exists c, e. split; [by right|done].
  - case_decide.
    + intros Hr.
      destruct (IH _ Hr) as [[? ?]|[(e & ? & ?)|(? & c & e & ? & ?)]].
      * left. split; [done|by right].
      * right. left. exists e. split; [done|by right].
      * right. right. split; [done|]. exists c, e. split; [by right|done].
    + intros [= _ <-]. left. split; [done|left].
  - intros [= _ <-]. right. left. exists err. split; [done|left].
  - destruct (drain_check_cases config (override_schema config change)
                (run_loop config schedule)
                (processChange (override_schema config change) st))
      as [(st1 & -> & _)|[(Hd & st1 & err & -> & _)|(_ & st1 & -> & _)]].
    + intros Hr.
      destruct (IH _ Hr) as [[? ?]|[(e & ? & ?)|(? & c & e & ? & ?)]].
      * left. split; [done|by right].
      * right. left. exists e. split; [done|by right].
      * right. right. split; [done|]. exists c, e. split; [by right|done].
    + intros [= _ <-]. right. right. split; [done|].
      exists change, err. split; [left|done].
    + done.
Qed.

(** When [Run] reaches its loop, it is its loop. *)
Lemma Run_started (config : AxonConfig) (setup : Setup)
    (schedule : list (step W)) (st : state W) :
  started setup →
  Run config setup schedule st =
    {| final := (run_loop config schedule st).1;
       listener := Some (Listener.NewNotifyListener
                           [Listener.StartFromID (StartFromID config)]);
       result := (run_loop config schedule st).2 |}.
Proof.
  intros [H1 H2]. unfold Run. rewrite H1, H2.
  by destruct (run_loop config schedule st).
Qed.

(** With a target schema configured, every statement of [Run] is one
    against it. *)
Lemma Run_statements (config : AxonConfig) (setup : Setup)
    (schedule : list (step W)) (st : state W) :
  TargetDBSchema config ≠ EmptyString →
  ∃ acts,
    trace (final (Run config setup schedule st)) = trace st ++ acts ∧
    Forall (targets (TargetDBSchema config)) acts.
Proof.
  intros Hne. unfold Run.
  destruct (first_failure (setup_steps setup));
    [exists []; by rewrite app_nil_r|].
  destruct (first_failure (connect_steps setup));
    [exists []; by rewrite app_nil_r|].
  destruct (run_loop_statements config (TargetDBSchema config) schedule st)
    as (acts & Ht & Ha).
  - intros change. by apply override_schema_Schema.
  - exists acts. destruct (run_loop config schedule st). by split.
Qed.

End Facts.

End RunFacts.

(** ** More on the applier and the coordinator *)

Module ObservationFacts.

Import Config Applier ApplierFacts Coordinator RunFacts Observations.

Section Facts.

Context {W : Type} `{World W}.

Lemma processChange_trace (change : Changeset) (st : state W) :
  trace (processChange change st) = trace st ++ apply_actions st change.
Proof.
  unfold processChange, apply_actions. destruct (Kind change).
  - by rewrite processInsert_eq.
  - by rewrite processUpdate_eq.
  - by rewrite processDelete_eq.
  - by rewrite app_nil_r.
Qed.

Lemma logged_statements (err : option Error) (entry : Error → action) :
  (∀ e, statement_of (entry e) = None) →
  omap statement_of (logged err entry) = [].
Proof. intros Hentry. destruct err; cbn; [by rewrite Hentry|done]. Qed.

(** One statement for a change of a kind that has a case, none for
    another. *)
Lemma apply_actions_statements (change : Changeset) (st : state W) :
  omap statement_of (apply_actions st change) =
    if known change then [change] else [].
Proof.
  unfold apply_actions, known. destruct (Kind change); cbn zeta.
  - rewrite omap_app, logged_statements by done. done.
  - rewrite !omap_app, !logged_statements by done. done.
  - rewrite !omap_app, !logged_statements by done. done.
  - done.
Qed.

Lemma apply_actions_applies (change : Changeset) (st : state W) :
  Forall (applies change) (apply_actions st change).
Proof.
  unfold apply_actions. destruct (Kind change); cbn zeta;
    rewrite ?Forall_app; repeat split;
    try (by repeat constructor);
    match goal with
    | |- Forall _ (logged ?err _) => destruct err; by repeat constructor
    end.
Qed.

(** The check of the drain mode, with the actions it adds. *)
Lemma drain_check_drains (config : AxonConfig) (change : Changeset)
    (continue : state W → state W * status) (st : state W) :
  ∃ st' acts,
    trace st' = trace st ++ acts ∧ Forall drains acts ∧
    world st' = world st ∧
    (drain_check config change continue st = continue st' ∨
     ShutdownAfterLastChangeset config = true ∧
     ((∃ err, drain_check config change continue st =
         (st', Returned (Some
            (wrap "failed to determine if the sync is complete" err)))) ∨
      drain_check config change continue st = (st', BlockedInShutdown))).
Proof.
  assert (Hcall : drains (CallIsLatestChangeSet (ID change)))
    by (left; by eexists).
  assert (Hlog : drains log_sync_complete) by (right; by left).
  assert (Hsend : drains SendShutdown) by (right; by right).
  unfold drain_check.
  destruct (ShutdownAfterLastChangeset config).
  - destruct (IsLatestChangeSet _ _) as [[|] [err|]]; cbn [emit world].
    + exists (emit (CallIsLatestChangeSet (ID change)) st),
        [CallIsLatestChangeSet (ID change)].
      split; [done|]. split; [repeat (constructor; [assumption|]); constructor|].
      split; [done|]. right. split; [done|]. left. by exists err.
    + unfold Shutdown. cbn [shutdownCh emit trace world].
      destruct (decide (shutdownCh st < 1)%nat).
      * eexists _, [CallIsLatestChangeSet (ID change); log_sync_complete;
                    SendShutdown].
        split; [|split; [|split; [|left; reflexivity]]].
        -- cbn [trace]. by rewrite <- !app_assoc.
        -- repeat (constructor; [assumption|]); constructor.
        -- done.
      * exists (emit log_sync_complete
                  (emit (CallIsLatestChangeSet (ID change)) st)),
          [CallIsLatestChangeSet (ID change); log_sync_complete].
        split; [|split; [|split; [|right; split; [done|by right]]]].
        -- unfold emit. cbn [trace]. by rewrite <- !app_assoc.
        -- repeat (constructor; [assumption|]); constructor.
        -- done.
    + exists (emit (CallIsLatestChangeSet (ID change)) st),
        [CallIsLatestChangeSet (ID change)].
      split; [done|]. split; [repeat (constructor; [assumption|]); constructor|].
      split; [done|]. right. split; [done|]. left. by exists err.
    + exists (emit (CallIsLatestChangeSet (ID change)) st),
        [CallIsLatestChangeSet (ID change)].
      split; [done|]. split; [repeat (constructor; [assumption|]); constructor|].
      split; [done|]. by left.
  - exists st, []. rewrite app_nil_r. split; [done|]. split; [constructor|].
    split; [done|]. by left.
Qed.

Lemma override_schema_known (config : AxonConfig) (change : Changeset) :
  known (override_schema config change) = known change.
Proof. unfold override_schema. by case_decide. Qed.

(** The shape of the trace of the loop: actions of applying changes and of
    the drain mode, closed by the actions of the shutdown exactly when the
    loop returns nil. *)
Lemma run_loop_shape (config : AxonConfig) (P : action → Prop)
    (schedule : list (step W)) (st : state W) :
  (∀ change a, applies change a → P a) →
  (∀ a, drains a → P a) →
  ∃ before,
    Forall P before ∧
    trace (run_loop config schedule st).1 =
      trace st ++ before ++
        match (run_loop config schedule st).2 with
        | Returned None => shutdown_actions
        | _ => []
        end.
Proof.
  intros Happlies Hdrains. revert st.
  induction schedule as [|[|f| |err|change] schedule IH]; intros st;
    cbn [run_loop].
  - exists []. by rewrite !app_nil_r.
  - apply (IH (relay_signal st)).
  - apply (IH (set_world (f (world st)) st)).
  - case_decide; [apply IH|]. by exists [].
  - exists []. by rewrite !app_nil_r.
  - destruct (drain_check_drains config (override_schema config change)
                (run_loop config schedule)
                (processChange (override_schema config change) st))
      as (st' & acts & Ht & Ha & _ & [->|(_ & [(err & ->)| ->])]);
      rewrite processChange_trace in Ht;
      (assert (Hp : Forall P (apply_actions st (override_schema config change)
                               ++ acts));
       [rewrite Forall_app; split;
        [eapply Forall_impl; [apply apply_actions_applies|];
         intros a; apply Happlies
        |eapply Forall_impl; [exact Ha|exact Hdrains]]|]).
    + destruct (IH st') as (before & Hb & ->). rewrite Ht.
      exists ((apply_actions st (override_schema config change) ++ acts)
                ++ before).
      split; [by apply Forall_app|]. by rewrite <- !app_assoc.
    + cbn [fst snd]. rewrite Ht. eexists. split; [exact Hp|].
      by rewrite <- !app_assoc, app_nil_r.
    + cbn [fst snd]. rewrite Ht. eexists. split; [exact Hp|].
      by rewrite <- !app_assoc, app_nil_r.
Qed.

(** The first step that fails, and the steps before it that did not. *)
Lemma first_failure_Some (steps : list (string * option Error)) (e : Error) :
  first_failure steps = Some e →
  ∃ pre msg err post,
    steps = pre ++ (msg, Some err) :: post ∧
    Forall (λ s, s.2 = None) pre ∧ e = wrap msg err.
Proof.
  induction steps as [|[msg [err|]] steps IH]; cbn [first_failure]; [done| |].
  - intros [= <-]. by exists [], msg, err, steps.
  - intros He. destruct (IH He) as (pre & msg' & err' & post & -> & Hpre & ->).
    exists ((msg, None) :: pre), msg', err', post.
    split; [done|]. split; [by constructor|done].
Qed.

Lemma drains_statements (acts : list action) :
  Forall drains acts → omap statement_of acts = [].
Proof.
  induction 1 as [|a acts Ha _ IH]; [done|].
  destruct Ha as [[id ->]|[->| ->]]; exact IH.
Qed.

Lemma applies_not_drains (change : Changeset) (a : action) :
  applies change a → ¬ drains a.
Proof.
  intros Ha [[id ->]|[->| ->]]; cbn in Ha; done.
Qed.

Lemma applies_not_closes (change : Changeset) (a : action) :
  applies change a → closes a = false.
Proof. by destruct a. Qed.

Lemma drains_not_closes (a : action) : drains a → closes a = false.
Proof. by intros [[id ->]|[->| ->]]. Qed.

(** The statements of the loop are the changes received, in order, as far
    as the loop came. *)
Lemma run_loop_order (config : AxonConfig) (schedule : list (step W))
    (st : state W) :
  ∃ acts n,
    trace (run_loop config schedule st).1 = trace st ++ acts ∧
    omap statement_of acts =
      filter (λ c, known c)
        (override_schema config <$> take n (received schedule)) ∧
    ((run_loop config schedule st).2 = Selecting →
     n = length (received schedule)).
Proof.
  revert st.
  induction schedule as [|[|f| |err|change] schedule IH]; intros st;
    cbn [run_loop].
  - exists [], 0%nat. by rewrite app_nil_r.
  - apply (IH (relay_signal st)).
  - apply (IH (set_world (f (world st)) st)).
  - case_decide; [apply IH|]. exists shutdown_actions, 0%nat. done.
  - exists [], 0%nat. by rewrite app_nil_r.
  - change (received (RecvChange change :: schedule))
      with (change :: received schedule).
    assert (Hhead : ∀ l,
              (if known (override_schema config change)
               then [override_schema config change] else []) ++
                filter (λ c, known c) l =
              filter (λ c, known c) (override_schema config change :: l)).
    { intros l. rewrite filter_cons.
      destruct (known (override_schema config change)); by case_decide. }
    destruct (drain_check_drains config (override_schema config change)
                (run_loop config schedule)
                (processChange (override_schema config change) st))
      as (st' & acts & Ht & Ha & _ & [->|(_ & [(err & ->)| ->])]);
      rewrite processChange_trace in Ht; apply drains_statements in Ha.
    + destruct (IH st') as (acts' & n & -> & Hs & Hn). rewrite Ht.
      exists (apply_actions st (override_schema config change)
                ++ acts ++ acts'), (S n).
      split; [by rewrite <- !app_assoc|]. split.
      * rewrite !omap_app, Ha, Hs, apply_actions_statements.
        cbn [take fmap list_fmap app]. apply Hhead.
      * intros Hsel. cbn [length]. by rewrite (Hn Hsel).
    + cbn [fst snd]. rewrite Ht.
      exists (apply_actions st (override_schema config change) ++ acts),
        1%nat.
      split; [by rewrite <- !app_assoc|]. split; [|done].
      rewrite !omap_app, Ha, apply_actions_statements, app_nil_r.
      cbn [take fmap list_fmap]. rewrite <- Hhead, take_0.
      by rewrite fmap_nil, filter_nil, app_nil_r.
    + cbn [fst snd]. rewrite Ht.
      exists (apply_actions st (override_schema config change) ++ acts),
        1%nat.
      split; [by rewrite <- !app_assoc|]. split; [|done].
      rewrite !omap_app, Ha, apply_actions_statements, app_nil_r.
      cbn [take fmap list_fmap]. rewrite <- Hhead, take_0.
      by rewrite fmap_nil, filter_nil, app_nil_r.
Qed.

(** Without the drain mode the loop adds no action of that mode and does
    not block in [Shutdown]. *)
Lemma run_loop_without_drain (config : AxonConfig)
    (schedule : list (step W)) (st : state W) :
  ShutdownAfterLastChangeset config = false →
  (run_loop config schedule st).2 ≠ BlockedInShutdown ∧
  ∃ acts,
    trace (run_loop config schedule st).1 = trace st ++ acts ∧
    Forall (λ a, ¬ drains a) acts.
Proof.
  intros Hoff. revert st.
  induction schedule as [|[|f| |err|change] schedule IH]; intros st;
    cbn [run_loop].
  - split; [done|]. exists []. by rewrite app_nil_r.
  - apply (IH (relay_signal st)).
  - apply (IH (set_world (f (world st)) st)).
  - case_decide; [apply IH|]. split; [done|]. exists shutdown_actions.
    split; [done|].
    repeat (constructor; [by intros [[id ?]|[?|?]]|]). constructor.
  - split; [done|]. exists []. by rewrite app_nil_r.
  - unfold drain_check. rewrite Hoff.
    destruct (IH (processChange (override_schema config change) st))
      as (Hb & acts & -> & Ha).
    split; [exact Hb|]. rewrite processChange_trace.
    exists (apply_actions st (override_schema config change) ++ acts).
    split; [by rewrite <- app_assoc|]. apply Forall_app. split; [|done].
    eapply Forall_impl; [apply apply_actions_applies|].
    intros a. apply applies_not_drains.
Qed.

(** The statements of [Run] are those of its loop. *)
Lemma Run_order (config : AxonConfig) (setup : Setup)
    (schedule : list (step W)) (st : state W) :
  ∃ acts n,
    trace (final (Run config setup schedule st)) = trace st ++ acts ∧
    omap statement_of acts =
      filter (λ c, known c)
        (override_schema config <$> take n (received schedule)) ∧
    (result (Run config setup schedule st) = Selecting →
     n = length (received schedule)).
Proof.
  unfold Run.
  destruct (first_failure (setup_steps setup));
    [exists [], 0%nat; by rewrite app_nil_r|].
  destruct (first_failure (connect_steps setup));
    [exists [], 0%nat; by rewrite app_nil_r|].
  destruct (run_loop_order config schedule st) as (acts & n & Ht & Hs & Hn).
  exists acts, n. by destruct (run_loop config schedule st).
Qed.

End Facts.

End ObservationFacts.

(** ** The applier and the coordinator: statements of the design document *)

Module RunClaims.

Import Config Applier ApplierFacts Coordinator RunFacts.

(** C1 (the code departs from it).  For an Update or Delete changeset from
    which the primary key cannot be extracted, the applier logs the error;
    the design document has it skip the change, but [processUpdate] and
    [processDelete] go on after the log entry and hand the changeset, with
    whatever key came back, to [updateRow] and [deleteRow]. *)
Theorem unextracted_primary_key_is_not_skipped
    {W : Type} `{!World W} (change : Changeset) (st : state W)
    (pk : list string) (e : Error) :
  Kind change = ChangesetKindUpdate ∨ Kind change = ChangesetKindDelete →
  getPrimaryKeyForChange (world st) change = (pk, Some e) →
  ∃ verb call tail,
    (Kind change = ChangesetKindUpdate ∧ verb = "UPDATE"%string ∧
       call = CallUpdateRow change pk ∨
     Kind change = ChangesetKindDelete ∧ verb = "DELETE"%string ∧
       call = CallDeleteRow change pk) ∧
    trace (processChange change st) =
      trace st ++ [no_primary_key verb change e; call] ++ tail.
Proof.
  intros [Hk|Hk] Hpk; unfold processChange; rewrite Hk.
  - rewrite processUpdate_eq. cbn zeta. rewrite Hpk. cbn [fst snd trace logged].
    eexists "UPDATE"%string, _, _. split; [left; done|]. reflexivity.
  - rewrite processDelete_eq. cbn zeta. rewrite Hpk. cbn [fst snd trace logged].
    eexists "DELETE"%string, _, _. split; [right; done|]. reflexivity.
Qed.

Lemma unextracted_primary_key_is_not_skipped_witness :
  trace (final (Run (RunExamples.config "public" false) setup_ok
                  [RecvChange RunExamples.delete_without_key]
                  (fresh RunExamples.replicated))) =
    [no_primary_key "DELETE" RunExamples.delete_without_key
       "changeset has no value for the primary key of users";
     CallDeleteRow RunExamples.delete_without_key [];
     failed_statement "DELETE" RunExamples.delete_without_key []
       "statement without a key column"] ∧
  ∃ tail,
    trace (final (Run (RunExamples.config "public" false) setup_ok
                    [RecvChange RunExamples.update_without_key]
                    (fresh RunExamples.replicated))) =
      [no_primary_key "UPDATE" RunExamples.update_without_key
         "changeset has no value for the primary key of users";
       CallUpdateRow RunExamples.update_without_key []] ++ tail.
Proof.
  split; [reflexivity|].
  destruct (unextracted_primary_key_is_not_skipped
              RunExamples.update_without_key (fresh RunExamples.replicated)
              [] "changeset has no value for the primary key of users")
    as (verb & call & tail & [(_ & -> & ->)|(Hk & _)] & Htrace).
  - left. reflexivity.
  - reflexivity.
  - exists tail. exact Htrace.
  - discriminate Hk.
Defined.







(** C7.  When the configured [TargetDBSchema] is not empty, the [Schema] of
    every changeset [Run] receives is replaced by it before
    [processChange]: the changeset applied is the one received with its
    schema set to [TargetDBSchema], and every statement [Run] hands to the
    target is one against that schema, whatever schema the source
    recorded. *)
Theorem Run_overrides_schema
    {W : Type} `{!World W} (config : AxonConfig) (setup : Setup)
    (schedule : list (step W)) (st : state W) :
  TargetDBSchema config ≠ EmptyString →
  (∀ change rest st0,
      run_loop config (RecvChange change :: rest) st0 =
        drain_check config (set_Schema (TargetDBSchema config) change)
          (run_loop config rest)
          (processChange (set_Schema (TargetDBSchema config) change) st0)) ∧
  ∃ acts,
    trace (final (Run config setup schedule st)) = trace st ++ acts ∧
    Forall (targets (TargetDBSchema config)) acts.
Proof.
  intros Hne. split.
  - intros change rest st0. cbn [run_loop]. unfold override_schema.
    by case_decide.
  - by apply Run_statements.
Qed.

Lemma Run_overrides_schema_witness :
  trace (final (Run (RunExamples.config "mirror" false) setup_ok
                  [RecvChange RunExamples.insert_alice]
                  (fresh RunExamples.empty_target))) =
    [CallInsertRow (set_Schema "mirror" RunExamples.insert_alice)] ∧
  Databases.target
    (world (final (Run (RunExamples.config "mirror" false) setup_ok
                     [RecvChange RunExamples.insert_alice]
                     (fresh RunExamples.empty_target)))) =
    [{| Databases.row_schema := "mirror"; Databases.row_table := "users";
        Databases.row_values := [("id", "1"); ("name", "alice")] |}].
Proof.
  destruct (Run_overrides_schema (RunExamples.config "mirror" false) setup_ok
              [RecvChange RunExamples.insert_alice]
              (fresh RunExamples.empty_target)) as [Hstep _].
  - discriminate.
  - unfold Run. cbn [first_failure setup_steps connect_steps setup_ok
                     open_source open_target checkTargetVersion
                     printSourceStats loadPrimaryKeys loadColumnSequences
                     loadOrphanSequences NewWarpPipe wp_Open].
    rewrite Hstep. split; reflexivity.
Defined.

(** C8, as the design document states it, fails: with the drain mode on,
    the changeset [insert_alice] is applied and reported as the latest, and
    [Shutdown] puts its signal into the channel; a producer commits
    [insert_bob], the [select] takes it from the stream of changes although
    the signal is waiting, and [Run] applies it; it is the latest again,
    and the second [Shutdown] blocks on the full channel, so that [Run]
    never returns. *)
Lemma drain_mode_applies_after_shutdown_and_blocks :
  result (Run (RunExamples.config "public" true) setup_ok
            [RecvChange RunExamples.insert_alice;
             Elsewhere (Databases.commit RunExamples.insert_bob);
             RecvChange RunExamples.insert_bob]
            (fresh RunExamples.empty_target)) = BlockedInShutdown ∧
  trace (final (Run (RunExamples.config "public" true) setup_ok
                  [RecvChange RunExamples.insert_alice;
                   Elsewhere (Databases.commit RunExamples.insert_bob);
                   RecvChange RunExamples.insert_bob]
                  (fresh RunExamples.empty_target))) =
    [CallInsertRow RunExamples.insert_alice;
     CallIsLatestChangeSet 1; log_sync_complete; SendShutdown;
     CallInsertRow RunExamples.insert_bob;
     CallIsLatestChangeSet 2; log_sync_complete].
Proof. split; reflexivity. Qed.

(** C8, amended.  With [ShutdownAfterLastChangeset] on, [Run] consults
    [IsLatestChangeSet] with the id of each changeset right after applying
    it; when the answer is that this id is the latest and the shutdown
    channel is empty, [Shutdown] puts a signal into the channel, and [Run]
    returns nil when its [select] receives that signal next, without
    applying anything in between. *)
Theorem drain_mode_shuts_down_after_latest_changeset
    {W : Type} `{!World W} (config : AxonConfig) (change : Changeset)
    (schedule : list (step W)) (st : state W) :
  ShutdownAfterLastChangeset config = true →
  let applied := processChange (override_schema config change) st in
  (∃ tail,
      trace (run_loop config (RecvChange change :: schedule) st).1 =
        trace applied ++ CallIsLatestChangeSet (ID change) :: tail) ∧
  (IsLatestChangeSet (world applied) (ID change) = (true, None) →
   shutdownCh st = 0%nat →
   run_loop config (RecvChange change :: RecvShutdown :: schedule) st =
     ({| world := world applied; shutdownCh := 0;
         trace := trace applied ++
           [CallIsLatestChangeSet (ID change); log_sync_complete;
            SendShutdown;
            Log {| level := ErrorLevel; fields := [];
                   message := "shutting down..." |};
            Cancel; CloseWarpPipe; CloseSource; CloseTarget] |},
      Returned None)).
Proof.
  intros Hon applied.
  assert (Hid : ID (override_schema config change) = ID change).
  { unfold override_schema. by case_decide. }
  split.
  - cbn [run_loop]. fold applied. unfold drain_check. rewrite Hon, Hid.
    cbn [emit world].
    destruct (IsLatestChangeSet (world applied) (ID change)) as [[|] [err|]].
    + by exists [].
    + unfold Shutdown. cbn [emit shutdownCh trace world].
      destruct (decide (shutdownCh applied < 1)%nat).
      * match goal with
        | |- context [run_loop config schedule ?s] =>
            destruct (run_loop_extends config schedule s) as (acts & ->)
        end.
        cbn [trace]. rewrite <- !app_assoc. by eexists.
      * cbn [fst emit trace]. rewrite <- !app_assoc. by eexists.
    + by exists [].
    + match goal with
      | |- context [run_loop config schedule ?s] =>
          destruct (run_loop_extends config schedule s) as (acts & ->)
      end.
      cbn [trace emit]. rewrite <- !app_assoc. by eexists.
  - intros Hlatest Hempty.
    destruct (processChange_frame (override_schema config change) st)
      as (_ & _ & Hch & _). fold applied in Hch.
    cbn [run_loop]. fold applied. unfold drain_check. rewrite Hon, Hid.
    cbn [emit world]. rewrite Hlatest. unfold Shutdown.
    cbn [emit shutdownCh trace world]. rewrite Hch, Hempty.
    cbn [decide]. destruct (decide (0 < 1)%nat); [|lia].
    cbn [shutdownCh]. destruct (decide (1 = 0)%nat); [lia|].
    unfold shut_down. cbn [world shutdownCh trace pred].
    by rewrite <- !app_assoc.
Qed.

Lemma drain_mode_shuts_down_after_latest_changeset_witness :
  Run (RunExamples.config "public" true) setup_ok
    [RecvChange RunExamples.insert_alice; RecvShutdown;
     RecvChange RunExamples.insert_bob]
    (fresh RunExamples.empty_target) =
  {| final :=
       {| world := RunExamples.replicated; shutdownCh := 0;
          trace :=
            [CallInsertRow RunExamples.insert_alice;
             CallIsLatestChangeSet 1; log_sync_complete; SendShutdown;
             Log {| level := ErrorLevel; fields := [];
                    message := "shutting down..." |};
             Cancel; CloseWarpPipe; CloseSource; CloseTarget] |};
     listener := Some {| Listener.startFromID := 0 |};
     result := Returned None |}.
Proof.
  destruct (drain_mode_shuts_down_after_latest_changeset
              (RunExamples.config "public" true) RunExamples.insert_alice
              [RecvChange RunExamples.insert_bob]
              (fresh RunExamples.empty_target)) as [_ Hreturns].
  - reflexivity.
  - unfold Run. cbn [first_failure setup_steps connect_steps setup_ok
                     open_source open_target checkTargetVersion
                     printSourceStats loadPrimaryKeys loadColumnSequences
                     loadOrphanSequences NewWarpPipe wp_Open].
    rewrite Hreturns; reflexivity.
Defined.

End RunClaims.
(** ** The configuration *)

Module ConfigFacts.

Import Config.

Section Facts.

Variable ParseInt : string → Z + Error.
Variable Quote : string → string.

(** What a configuration that was loaded holds. *)
Lemma NewAxonConfigFromEnv_fields (env : Environ) (config : AxonConfig) :
  NewAxonConfigFromEnv ParseInt Quote env = inl config →
  TargetDBSchema config = string_field env "TARGET_DB_SCHEMA" (Some "public") ∧
  bool_field Quote env "SHUTDOWN_AFTER_LAST_CHANGESET"
    "ShutdownAfterLastChangeset" = inl (ShutdownAfterLastChangeset config).
Proof.
  unfold NewAxonConfigFromEnv, Process.
  destruct (int_field ParseInt env "SOURCE_DB_PORT" _); [|done].
  destruct (int_field ParseInt env "TARGET_DB_PORT" _); [|done].
  destruct (bool_field Quote env "SHUTDOWN_AFTER_LAST_CHANGESET" _); [|done].
  destruct (int_field ParseInt env "START_FROM_ID" _); [|done].
  by intros [= <-].
Qed.

(** The schema field is decoded from the prefixed variable, else from the
    bare one, else from the default. *)
Lemma TargetDBSchema_value (env : Environ) :
  string_field env "TARGET_DB_SCHEMA" (Some "public") =
    match env !! "AXON_TARGET_DB_SCHEMA" with
    | Some value => value
    | None => default "public"%string (env !! "TARGET_DB_SCHEMA")
    end.
Proof.
  unfold string_field, field_value, lookupEnv.
  change (field_key "TARGET_DB_SCHEMA") with "AXON_TARGET_DB_SCHEMA".
  destruct (env !! "AXON_TARGET_DB_SCHEMA") as [value|]; [done|].
  by destruct (env !! "TARGET_DB_SCHEMA").
Qed.

Lemma TargetDBSchema_empty (env : Environ) :
  string_field env "TARGET_DB_SCHEMA" (Some "public") = EmptyString ↔
  lookupEnv env "TARGET_DB_SCHEMA" = Some EmptyString.
Proof.
  unfold string_field, field_value.
  destruct (lookupEnv env "TARGET_DB_SCHEMA") as [value|]; split;
    intros Heq; by simplify_eq.
Qed.

End Facts.

End ConfigFacts.

Module ConfigClaims.

Import Config Applier Coordinator RunFacts ConfigFacts.
Import Observations ObservationFacts.

(** C10, as the design document states it, fails: with
    [AXON_TARGET_DB_SCHEMA] unset, [TargetDBSchema] is not ["public"] when
    the variable [TARGET_DB_SCHEMA] is set, which [envconfig.Process]
    reads in its place; a received changeset is then rewritten to that
    schema and not to ["public"]. *)
Lemma bare_variable_sets_the_target_schema :
  ConfigExamples.environ_bare !! "AXON_TARGET_DB_SCHEMA" = None ∧
  NewAxonConfigFromEnv ParseInt_decimal quote ConfigExamples.environ_bare =
    inl ConfigExamples.loaded_bare ∧
  TargetDBSchema ConfigExamples.loaded_bare = "tenant" ∧
  trace (final (Run ConfigExamples.loaded_bare setup_ok
                  [RecvChange RunExamples.insert_alice]
                  (fresh RunExamples.empty_target))) =
    [CallInsertRow (set_Schema "tenant" RunExamples.insert_alice)] ∧
  set_Schema "tenant" RunExamples.insert_alice ≠
    set_Schema "public" RunExamples.insert_alice.
Proof.
  split; [vm_compute; reflexivity|]. split; [vm_compute; reflexivity|].
  split; [vm_compute; reflexivity|]. split; [vm_compute; reflexivity|].
  discriminate.
Qed.

(** C10, amended.  For a configuration loaded from the environment:
    [TargetDBSchema] is ["public"] when neither [AXON_TARGET_DB_SCHEMA]
    nor [TARGET_DB_SCHEMA] is set, and then every changeset [Run] receives
    has its schema rewritten to ["public"] before it is applied: the
    changeset handed to [processChange] is the one received with the
    schema ["public"], and the statements [Run] hands to the target are
    the changesets received, so rewritten, in the order received.  The
    override fires whenever [TargetDBSchema] is not empty; and a changeset
    keeps a schema other than the configured one only when the variable
    the schema is read from is set to the empty string. *)
Theorem default_target_schema_rewrites_every_changeset
    (ParseInt : string → Z + Error) (Quote : string → string)
    (env : Environ) (config : AxonConfig) :
  NewAxonConfigFromEnv ParseInt Quote env = inl config →
  (env !! "AXON_TARGET_DB_SCHEMA" = None →
   env !! "TARGET_DB_SCHEMA" = None →
     TargetDBSchema config = "public" ∧
     (∀ change, override_schema config change = set_Schema "public" change) ∧
     (∀ (W : Type) (HW : World W) change (rest : list (step W)) st,
        run_loop config (RecvChange change :: rest) st =
          drain_check config (set_Schema "public" change)
            (run_loop config rest)
            (processChange (set_Schema "public" change) st)) ∧
     (∀ (W : Type) (HW : World W) setup (schedule : list (step W)) st,
        ∃ acts n,
          trace (final (Run config setup schedule st)) = trace st ++ acts ∧
          Forall (targets "public") acts ∧
          omap statement_of acts =
            filter (λ c, known c)
              (set_Schema "public" <$> take n (received schedule)) ∧
          (result (Run config setup schedule st) = Selecting →
           n = length (received schedule)))) ∧
  (∀ change,
     TargetDBSchema config ≠ EmptyString →
     override_schema config change = set_Schema (TargetDBSchema config) change) ∧
  (TargetDBSchema config = EmptyString ↔
     lookupEnv env "TARGET_DB_SCHEMA" = Some EmptyString) ∧
  (∀ change,
     Schema change ≠ TargetDBSchema config →
     Schema (override_schema config change) = Schema change →
     env !! "AXON_TARGET_DB_SCHEMA" = Some EmptyString ∨
     env !! "AXON_TARGET_DB_SCHEMA" = None ∧
     env !! "TARGET_DB_SCHEMA" = Some EmptyString).
Proof.
  intros Hloaded.
  destruct (NewAxonConfigFromEnv_fields ParseInt Quote env config Hloaded)
    as (Hschema & _).
  assert (Hfires : ∀ change,
            TargetDBSchema config ≠ EmptyString →
            override_schema config change =
              set_Schema (TargetDBSchema config) change).
  { intros change Hne. unfold override_schema. by case_decide. }
  assert (Hempty : TargetDBSchema config = EmptyString ↔
                   lookupEnv env "TARGET_DB_SCHEMA" = Some EmptyString).
  { rewrite Hschema. apply TargetDBSchema_empty. }
  split; [|split; [exact Hfires|split; [exact Hempty|]]].
  - intros Hunset Hbare.
    assert (Hpublic : TargetDBSchema config = "public").
    { rewrite Hschema, TargetDBSchema_value. by rewrite Hunset, Hbare. }
    assert (Hall : ∀ change,
              override_schema config change = set_Schema "public" change).
    { intros change. rewrite <- Hpublic. apply Hfires. by rewrite Hpublic. }
    split; [exact Hpublic|]. split; [exact Hall|]. split.
    + intros W HW change rest st. cbn [run_loop]. by rewrite Hall.
    + intros W HW setup schedule st.
      destruct (Run_statements config setup schedule st) as (acts & Ht & Hs).
      { by rewrite Hpublic. }
      destruct (Run_order config setup schedule st)
        as (acts' & n & Ht' & Hst & Hn).
      assert (acts' = acts) as -> by (rewrite Ht in Ht'; by simplify_list_eq).
      exists acts, n. split; [exact Ht|]. split; [by rewrite <- Hpublic|].
      split; [|exact Hn]. rewrite Hst. f_equal. apply list_fmap_ext.
      intros i c _. apply Hall.
  - intros change Hother Hkept.
    assert (Hnone : lookupEnv env "TARGET_DB_SCHEMA" = Some EmptyString).
    { apply Hempty.
      destruct (decide (TargetDBSchema config = EmptyString)) as [|Hne];
        [done|].
      rewrite (Hfires change Hne) in Hkept. cbn in Hkept. congruence. }
    unfold lookupEnv in Hnone.
    change (field_key "TARGET_DB_SCHEMA") with "AXON_TARGET_DB_SCHEMA" in Hnone.
    destruct (env !! "AXON_TARGET_DB_SCHEMA") as [value|]; [left|right]; done.
Qed.

Lemma default_target_schema_rewrites_every_changeset_witness :
  TargetDBSchema ConfigExamples.loaded = "public" ∧
  override_schema ConfigExamples.loaded
    (set_Schema "sales" RunExamples.insert_alice) = RunExamples.insert_alice.
Proof.
  destruct (default_target_schema_rewrites_every_changeset ParseInt_decimal
              quote ConfigExamples.environ ConfigExamples.loaded)
    as (Hdefault & _).
  - vm_compute. reflexivity.
  - destruct Hdefault as (Hpublic & Hoverride & _).
    + vm_compute. reflexivity.
    + vm_compute. reflexivity.
    + split; [exact Hpublic|]. rewrite Hoverride. reflexivity.
Defined.

End ConfigClaims.

(** ** Further properties of the applier and the coordinator *)

Module RunProperties.

Import Config Applier ApplierFacts Coordinator RunFacts.
Import Observations ObservationFacts.

(** X1.  [processChange] hands exactly one statement to the target for a
    change whose kind has a case and none for another kind; it leaves the
    shutdown channel alone; every entry it logs is at error severity and
    carries the table of the change and an error that arose while the
    change was applied; and when no error arises it logs nothing. *)
Theorem processChange_logs_exactly_the_errors
    {W : Type} `{!World W} (change : Changeset) (st : state W) :
  ∃ acts,
    trace (processChange change st) = trace st ++ acts ∧
    shutdownCh (processChange change st) = shutdownCh st ∧
    omap statement_of acts = (if known change then [change] else []) ∧
    (∀ entry,
       Log entry ∈ acts →
       level entry = ErrorLevel ∧
       ∃ e, arises st change e ∧
            fields entry = [("error"%string, e); ("table"%string, Table change)]) ∧
    ((∀ e, ¬ arises st change e) →
     acts = statement change (getPrimaryKeyForChange (world st) change).1).
Proof.
  exists (apply_actions st change).
  split; [apply processChange_trace|].
  split; [by destruct (processChange_frame change st) as (? & _ & ? & _)|].
  split; [apply apply_actions_statements|].
  unfold apply_actions, statement.
  destruct (getPrimaryKeyForChange (world st) change) as [pk err] eqn:Hpk.
  cbn [fst snd].
  destruct (Kind change) eqn:Hkind; cbn zeta.
  - destruct (insertRow (world st) change) as [w [e|]] eqn:Hins;
      cbn [snd logged app]; split.
    + intros entry Hel. apply elem_of_cons in Hel as [Hel|Hel]; [done|].
      apply list_elem_of_singleton in Hel. injection Hel as ->.
      split; [done|]. exists e. split; [|done]. by eapply arises_insert.
    + intros Hnone. destruct (Hnone e). by eapply arises_insert.
    + intros entry Hel. apply list_elem_of_singleton in Hel. done.
    + done.
  - destruct (updateRow (world st) change pk) as [w [e|]] eqn:Hupd;
      destruct err as [e0|]; cbn [snd logged app]; split;
      try (intros Hnone; try done;
           first [destruct (Hnone e0); eapply arises_primary_key; eauto
                 |destruct (Hnone e); eapply arises_update; eauto;
                  by rewrite Hpk]);
      intros entry Hel; rewrite ?elem_of_cons, ?elem_of_nil in Hel;
      repeat match goal with
             | H : _ ∨ _ |- _ => destruct H as [H|H]
             | H : False |- _ => destruct H
             end;
      try discriminate Hel; injection Hel as ->; (split; [done|]).
    all: first [exists e0; split; [|done]; eapply arises_primary_key; eauto
               |exists e; split; [|done]; eapply arises_update; eauto;
                by rewrite Hpk].
  - destruct (deleteRow (world st) change pk) as [w [e|]] eqn:Hdel;
      destruct err as [e0|]; cbn [snd logged app]; split;
      try (intros Hnone; try done;
           first [destruct (Hnone e0); eapply arises_primary_key; eauto
                 |destruct (Hnone e); eapply arises_delete; eauto;
                  by rewrite Hpk]);
      intros entry Hel; rewrite ?elem_of_cons, ?elem_of_nil in Hel;
      repeat match goal with
             | H : _ ∨ _ |- _ => destruct H as [H|H]
             | H : False |- _ => destruct H
             end;
      try discriminate Hel; injection Hel as ->; (split; [done|]).
    all: first [exists e0; split; [|done]; eapply arises_primary_key; eauto
               |exists e; split; [|done]; eapply arises_delete; eauto;
                by rewrite Hpk].
  - split; [|done]. intros entry Hel. by apply elem_of_nil in Hel.
Qed.

(** X2.  The statements [Run] hands to the target are the changesets it
    received, with the schema override applied, in the order received:
    one statement for each changeset whose kind has a case, up to the
    changeset at which [Run] returned or blocked, and for all of them when
    [Run] is still in its [select]. *)
Theorem Run_applies_changes_in_the_order_received
    {W : Type} `{!World W} (config : AxonConfig) (setup : Setup)
    (schedule : list (step W)) (st : state W) :
  ∃ acts n,
    trace (final (Run config setup schedule st)) = trace st ++ acts ∧
    omap statement_of acts =
      filter (λ c, known c)
        (override_schema config <$> take n (received schedule)) ∧
    (result (Run config setup schedule st) = Selecting →
     n = length (received schedule)).
Proof.
  unfold Run.
  destruct (first_failure (setup_steps setup));
    [exists [], 0%nat; by rewrite app_nil_r|].
  destruct (first_failure (connect_steps setup));
    [exists [], 0%nat; by rewrite app_nil_r|].
  destruct (run_loop_order config schedule st) as (acts & n & Ht & Hs & Hn).
  exists acts, n. by destruct (run_loop config schedule st).
Qed.

(** X3.  [Run] cancels the listener and closes the warp-pipe and the two
    connections exactly when it returns nil: these are then the last four
    actions, after the entry ["shutting down..."]; when it returns an
    error, blocks or waits, nothing is cancelled or closed. *)
Theorem Run_closes_connections_exactly_on_shutdown
    {W : Type} `{!World W} (config : AxonConfig) (setup : Setup)
    (schedule : list (step W)) (st : state W) :
  ∃ before,
    Forall (λ a, closes a = false) before ∧
    trace (final (Run config setup schedule st)) =
      trace st ++ before ++
        match result (Run config setup schedule st) with
        | Returned None => shutdown_actions
        | _ => []
        end.
Proof.
  unfold Run.
  destruct (first_failure (setup_steps setup));
    [exists []; by rewrite !app_nil_r|].
  destruct (first_failure (connect_steps setup));
    [exists []; by rewrite !app_nil_r|].
  destruct (run_loop_shape config (λ a, closes a = false) schedule st)
    as (before & Hb & Ht).
  - apply applies_not_closes.
  - apply drains_not_closes.
  - exists before. by destruct (run_loop config schedule st).
Qed.

(** X4.  With [ShutdownAfterLastChangeset] off, [Run] never consults
    [IsLatestChangeSet], never logs that the sync is complete and never
    sends on its shutdown channel, so it cannot block in [Shutdown]; and
    it returns only nil on a shutdown signal, a listener error or the
    error of a step before the loop. *)
Theorem Run_without_drain_mode_never_consults_the_source
    {W : Type} `{!World W} (config : AxonConfig) (setup : Setup)
    (schedule : list (step W)) (st : state W) :
  ShutdownAfterLastChangeset config = false →
  result (Run config setup schedule st) ≠ BlockedInShutdown ∧
  (∃ acts,
     trace (final (Run config setup schedule st)) = trace st ++ acts ∧
     Forall (λ a, ¬ drains a) acts) ∧
  (∀ r, result (Run config setup schedule st) = Returned r →
        started setup →
        r = None ∨ ∃ err, r = Some (wrap "listener received an error" err)).
Proof.
  intros Hoff. split; [|split].
  - unfold Run.
    destruct (first_failure (setup_steps setup)); [done|].
    destruct (first_failure (connect_steps setup)); [done|].
    destruct (run_loop_without_drain config schedule st Hoff) as [Hb _].
    by destruct (run_loop config schedule st).
  - unfold Run.
    destruct (first_failure (setup_steps setup));
      [exists []; by rewrite app_nil_r|].
    destruct (first_failure (connect_steps setup));
      [exists []; by rewrite app_nil_r|].
    destruct (run_loop_without_drain config schedule st Hoff) as [_ Ha].
    by destruct (run_loop config schedule st).
  - intros r Hr Hstarted. rewrite (Run_started _ _ _ _ Hstarted) in Hr.
    cbn [result] in Hr.
    destruct (run_loop config schedule st) as [st' r'] eqn:Hloop.
    cbn [snd] in Hr. subst r'.
    destruct (run_loop_returned _ _ _ _ _ Hloop)
      as [[-> _]|[(err & -> & _)|(Hon & _)]].
    + by left.
    + right. by exists err.
    + congruence.
Qed.

Lemma Run_without_drain_mode_never_consults_the_source_witness :
  Forall (λ a, ¬ drains a)
    [CallInsertRow RunExamples.insert_alice;
     CallInsertRow RunExamples.insert_bob].
Proof.
  destruct (Run_without_drain_mode_never_consults_the_source
              (RunExamples.config "public" false) setup_ok
              [RecvChange RunExamples.insert_alice;
               RecvChange MoreExamples.truncate_users;
               RecvChange RunExamples.insert_bob]
              (fresh RunExamples.empty_target))
    as (_ & (acts & Ht & Ha) & _).
  - reflexivity.
  - vm_compute in Ht. subst acts. exact Ha.
Defined.

(** X5.  When a step before the loop fails, [Run] returns the error of the
    first step that failed, wrapped in the message of that step, and
    applies nothing of the schedule; the listener is made only when the
    seven steps on the two databases succeeded. *)
Theorem Run_returns_the_first_setup_failure
    {W : Type} `{!World W} (config : AxonConfig) (setup : Setup)
    (schedule : list (step W)) (st : state W) :
  ¬ started setup →
  ∃ pre msg err post,
    setup_steps setup ++ connect_steps setup =
      pre ++ (msg, Some err) :: post ∧
    Forall (λ s, s.2 = None) pre ∧
    result (Run config setup schedule st) = Returned (Some (wrap msg err)) ∧
    final (Run config setup schedule st) = st ∧
    (listener (Run config setup schedule st) = None ↔
       first_failure (setup_steps setup) ≠ None).
Proof.
  intros Hnot. unfold Run.
  destruct (first_failure (setup_steps setup)) as [e|] eqn:H1.
  - destruct (first_failure_Some _ _ H1)
      as (pre & msg & err & post & Hsteps & Hpre & ->).
    exists pre, msg, err, (post ++ connect_steps setup).
    rewrite Hsteps, <- app_assoc. by repeat split.
  - destruct (first_failure (connect_steps setup)) as [e|] eqn:H2.
    + destruct (first_failure_Some _ _ H2)
        as (pre & msg & err & post & Hsteps & Hpre & ->).
      exists (setup_steps setup ++ pre), msg, err, post.
      rewrite Hsteps, <- app_assoc. split; [done|]. split.
      * apply Forall_app. split; [|done].
        clear -H1. induction (setup_steps setup) as [|[m [e|]] l IH];
          [constructor|done|].
        constructor; [done|]. by apply IH.
      * by repeat split.
    + destruct Hnot. by split.
Qed.

Lemma Run_returns_the_first_setup_failure_witness :
  Run (RunExamples.config "public" false) MoreExamples.setup_without_keys
    [RecvChange RunExamples.insert_alice] (fresh RunExamples.empty_target) =
  {| final := fresh RunExamples.empty_target;
     listener := None;
     result := Returned (Some (wrap "unable to load target DB primary keys"
                                 "permission denied for table pg_constraint")) |}.
Proof.
  destruct (Run_returns_the_first_setup_failure
              (RunExamples.config "public" false)
              MoreExamples.setup_without_keys
              [RecvChange RunExamples.insert_alice]
              (fresh RunExamples.empty_target))
    as (pre & msg & err & post & _ & _ & Hr & Hf & Hl).
  - intros [Hs _]. discriminate Hs.
  - reflexivity.
Defined.

(** X6.  In drain mode, when the shutdown channel already holds a signal
    (relayed by the runtime, or sent by an earlier [Shutdown]) and the
    [select] takes a changeset that turns out to be the latest, the send of
    [Shutdown] finds the channel full: [Run] blocks, whatever the schedule
    that follows, and sends nothing. *)
Theorem a_pending_signal_blocks_the_drain_shutdown
    {W : Type} `{!World W} (config : AxonConfig) (change : Changeset)
    (schedule : list (step W)) (st : state W) :
  ShutdownAfterLastChangeset config = true →
  (1 ≤ shutdownCh st)%nat →
  IsLatestChangeSet
    (world (processChange (override_schema config change) st))
    (ID change) = (true, None) →
  run_loop config (RecvChange change :: schedule) st =
    (emit log_sync_complete
       (emit (CallIsLatestChangeSet (ID change))
          (processChange (override_schema config change) st)),
     BlockedInShutdown).
Proof.
  intros Hon Hfull Hlatest.
  assert (Hid : ID (override_schema config change) = ID change).
  { unfold override_schema. by case_decide. }
  destruct (processChange_frame (override_schema config change) st)
    as (_ & _ & Hch & _).
  cbn [run_loop]. unfold drain_check. rewrite Hon, Hid.
  cbn [emit world]. rewrite Hlatest. unfold Shutdown.
  cbn [emit shutdownCh]. rewrite Hch.
  destruct (decide (shutdownCh st < 1)%nat); [lia|done].
Qed.

Lemma a_pending_signal_blocks_the_drain_shutdown_witness :
  result (Run (RunExamples.config "public" true) setup_ok
            [Signal; RecvChange RunExamples.insert_alice; RecvShutdown]
            (fresh RunExamples.empty_target)) = BlockedInShutdown.
Proof.
  unfold Run. cbn [first_failure setup_steps connect_steps setup_ok
                   open_source open_target checkTargetVersion
                   printSourceStats loadPrimaryKeys loadColumnSequences
                   loadOrphanSequences NewWarpPipe wp_Open].
  change (run_loop ?c (Signal :: ?l) ?s) with (run_loop c l (relay_signal s)).
  rewrite (a_pending_signal_blocks_the_drain_shutdown
             (RunExamples.config "public" true) RunExamples.insert_alice
             [RecvShutdown] (relay_signal (fresh RunExamples.empty_target)));
    reflexivity || (vm_compute; lia).
Defined.

End RunProperties.

(** ** The two ways the source is connected to *)

Module ConnectionFacts.

Import Config Connections.

Lemma length_append (a b : string) :
  String.length (a +:+ b) = (String.length a + String.length b)%nat.
Proof. induction a as [|c a IH]; simpl; [done|by rewrite IH]. Qed.

Lemma append_cancel_r (a b s : string) : a +:+ s = b +:+ s → a = b.
Proof.
  revert b. induction a as [|c a IH]; intros [|d b] Heq; simpl in Heq.
  - done.
  - apply (f_equal String.length) in Heq.
    rewrite ?length_append in Heq. simpl in Heq.
    rewrite ?length_append in Heq. lia.
  - apply (f_equal String.length) in Heq.
    rewrite ?length_append in Heq. simpl in Heq.
    rewrite ?length_append in Heq. lia.
  - injection Heq as -> Heq. f_equal. by apply IH.
Qed.

Lemma to_int_regular (n : Z) :
  Z.to_int n ≠ Decimal.Pos Decimal.Nil ∧ Z.to_int n ≠ Decimal.Neg Decimal.Nil.
Proof.
  destruct n as [|p|p]; cbn; split; try discriminate;
    intros [= Hp]; by apply DecimalPos.Unsigned.to_uint_nonnil in Hp.
Qed.

(** The digits written for an [int] are read back as that [int]. *)
Lemma fmt_d_read (n : Z) :
  Z.of_int <$> DecimalString.NilZero.int_of_string (fmt_d n) = Some n.
Proof.
  unfold fmt_d. destruct (to_int_regular n) as [Hpos Hneg].
  rewrite DecimalString.NilZero.isi by done. cbn.
  by rewrite DecimalZ.of_to.
Qed.

Lemma fmt_d_inj (n m : Z) : fmt_d n = fmt_d m → n = m.
Proof.
  intros Heq. pose proof (fmt_d_read n) as Hn. rewrite Heq, fmt_d_read in Hn.
  by injection Hn.
Qed.

(** Two connection strings with the same names differ exactly in their
    ports. *)
Lemma getDBConnString_port (host : string) (p q : Z) (name user pass : string) :
  getDBConnString host p name user pass =
    getDBConnString host q name user pass ↔ p = q.
Proof.
  split; [|by intros ->]. unfold getDBConnString. intros Heq.
  repeat match type of Heq with
         | ?a +:+ _ = ?a +:+ _ => apply (inj (String.app a)) in Heq
         end.
  apply fmt_d_inj. by eapply append_cancel_r.
Qed.

End ConnectionFacts.

Module ConnectionProperties.

Import Config Connections ConnectionFacts.

(** X7.  [Run] opens the source through sqlx with the connection string
    of [getDBConnString], which carries the configured port in full, and
    makes the listener's [pgx.ConnConfig] with [uint16(port)].  The pgx
    port is always within [0, 65535]; it is the configured port, and the
    two ways of connecting name the same database server, exactly when
    the configured port is within [0, 65535].  The same holds for the
    target connection of [Verify]. *)
Theorem pgx_port_is_the_configured_port_iff_in_range (config : AxonConfig) :
  (0 ≤ Port (source_ConnConfig config) < 65536 ∧
   (Port (source_ConnConfig config) = SourceDBPort config ↔
      0 ≤ SourceDBPort config < 65536) ∧
   (ConnString_of (source_ConnConfig config) = source_ConnString config ↔
      0 ≤ SourceDBPort config < 65536)) ∧
  (0 ≤ Port (target_ConnConfig config) < 65536 ∧
   (Port (target_ConnConfig config) = TargetDBPort config ↔
      0 ≤ TargetDBPort config < 65536) ∧
   (ConnString_of (target_ConnConfig config) = target_ConnString config ↔
      0 ≤ TargetDBPort config < 65536)).
Proof.
  assert (Hwrap : ∀ x, 0 ≤ uint16 x < 65536 ∧
                       (uint16 x = x ↔ 0 ≤ x < 65536)).
  { intros x. unfold uint16.
    pose proof (Z.mod_pos_bound x 65536 ltac:(lia)) as Hb.
    split; [exact Hb|]. split; [intros <-; exact Hb|].
    intros Hx. by apply Z.mod_small. }
  split.
  - destruct (Hwrap (SourceDBPort config)) as [Hb Hiff].
    split; [exact Hb|]. split; [exact Hiff|].
    unfold ConnString_of, source_ConnString, source_ConnConfig.
    cbn [Host Port User Password Database].
    by rewrite getDBConnString_port.
  - destruct (Hwrap (TargetDBPort config)) as [Hb Hiff].
    split; [exact Hb|]. split; [exact Hiff|].
    unfold ConnString_of, target_ConnString, target_ConnConfig.
    cbn [Host Port User Password Database].
    by rewrite getDBConnString_port.
Qed.

End ConnectionProperties.
(** ** Further properties of the verifier *)

Module VerifierProperties.

Import db Verifier VerifierFacts VerifyLoop.
Import VerifierObservations VerifierObservationFacts.

(** X8.  The slice of the ORDER BY columns is built without a panic
    exactly when every position of the key lies within [1..n], [n] being
    the number of key columns: in whatever order the map is ranged over,
    the loop ends in an index out of range as soon as one position is 0,
    negative or above [n]. *)
Theorem pkColumns_panics_iff_a_position_is_out_of_range (table : Table) :
  (is_Some (pkColumns table) ↔ in_range (PKeyFields table)) ∧
  (∀ entries,
     entries ≡ₚ map_to_list (PKeyFields table) →
     (fill_pkColumns table entries = None ↔
        ∃ p column, PKeyFields table !! p = Some column ∧
                    ¬ 1 ≤ p ≤ Z.of_nat (size (PKeyFields table)))).
Proof.
  split; [by apply fill_pkColumns_in_range|].
  intros entries Hperm.
  pose proof (fill_pkColumns_in_range table entries Hperm) as Hiff.
  split.
  - intros Hnone.
    destruct (decide (Forall (λ e : Z * string,
                1 ≤ e.1 ≤ Z.of_nat (size (PKeyFields table)))
                (map_to_list (PKeyFields table)))) as [Hall|Hex].
    + assert (Hsome : is_Some (fill_pkColumns table entries)).
      { apply Hiff. intros p c Hp. rewrite Forall_forall in Hall.
        apply (Hall (p, c)). by apply elem_of_map_to_list. }
      rewrite Hnone in Hsome. by destruct Hsome.
    + apply not_Forall_Exists in Hex; [|apply _].
      apply Exists_exists in Hex as ([p c] & Hel & Hout).
      exists p, c. split; [by apply elem_of_map_to_list|done].
  - intros (p & c & Hp & Hout).
    destruct (fill_pkColumns table entries) as [cols|] eqn:Hfill; [|done].
    destruct Hout. by apply (proj1 Hiff (mk_is_Some _ _ eq_refl) p c Hp).
Qed.

(** X9.  [Verify] panics only at a selected table that has a primary key
    with a position outside [1..n]; the tables before it were verified and
    found equal, and the log entry of that table is the last action, so no
    query was issued for it.  With every position in range [Verify] does
    not panic. *)
Theorem Verify_panics_only_at_a_position_out_of_range
    (env : Env) (schemas includeTables excludeTables : list string) :
  (Verify env schemas includeTables excludeTables).2 = Panics →
  ∃ pre table post,
    GenerateTablesList env schemas includeTables excludeTables =
      (pre ++ table :: post, None) ∧
    Forall (passes env) pre ∧
    (1 ≤ size (PKeyFields table))%nat ∧
    ¬ in_range (PKeyFields table) ∧
    (Verify env schemas includeTables excludeTables).1 =
      (verify_tables env pre).1 ++ [log_verifying table].
Proof.
  unfold Verify.
  destruct (connect_source env); [done|].
  destruct (prepare_source env); [done|].
  destruct (connect_target env); [done|].
  destruct (prepare_target env); [done|].
  destruct (GenerateTablesList env schemas includeTables excludeTables)
    as [tables [err|]]; [done|].
  intros Hp.
  destruct (verify_tables_panics env tables Hp)
    as (pre & table & post & -> & Hpre & Hsize & Hnone & Ht).
  exists pre, table, post. split; [done|]. split; [done|]. split; [done|].
  split; [|done]. intros Hrange.
  apply (fill_pkColumns_in_range table _ (reflexivity _)) in Hrange.
  unfold pkColumns in Hnone. rewrite Hnone in Hrange. by destruct Hrange.
Qed.

Lemma Verify_panics_only_at_a_position_out_of_range_witness :
  ∃ pre table post,
    [VerifyExamples.users; VerifyExamples.misplaced; VerifyExamples.order_lines]
      = pre ++ table :: post ∧
    Forall (passes (VerifyExamples.env
                      [VerifyExamples.users; VerifyExamples.misplaced;
                       VerifyExamples.order_lines])) pre ∧
    ¬ in_range (PKeyFields table).
Proof.
  destruct (Verify_panics_only_at_a_position_out_of_range
              (VerifyExamples.env [VerifyExamples.users;
                                   VerifyExamples.misplaced;
                                   VerifyExamples.order_lines])
              ["public"] [] [])
    as (pre & table & post & Hsel & Hpre & _ & Hout & _).
  - reflexivity.
  - exists pre, table, post. cbn in Hsel. injection Hsel as Hsel. done.
Defined.

(** X10.  [Verify] goes through the selected tables in the order of the
    list and at most once each: the log entries of a run are those of the
    first [n] tables, in order, there are at most two queries for each of
    them, and [n] is the number of all tables when [Verify] returns nil. *)
Theorem Verify_goes_through_the_tables_in_order
    (env : Env) (schemas includeTables excludeTables : list string)
    (tables : list Table) :
  selects env schemas includeTables excludeTables tables →
  ∃ n,
    (n ≤ length tables)%nat ∧
    filter (λ e, is_log e) (Verify env schemas includeTables excludeTables).1 =
      log_verifying <$> take n tables ∧
    (length (filter (λ e, is_query e)
               (Verify env schemas includeTables excludeTables).1) ≤ 2 * n)%nat ∧
    ((Verify env schemas includeTables excludeTables).2 = Returns None →
     n = length tables).
Proof.
  intros Hsel. rewrite (Verify_selects _ _ _ _ _ Hsel).
  apply verify_tables_order.
Qed.

Lemma Verify_goes_through_the_tables_in_order_witness :
  filter (λ e, is_log e)
    (Verify (VerifyExamples.env
               [VerifyExamples.users; VerifyExamples.order_lines;
                VerifyExamples.audit_log]) ["public"] [] []).1 =
    [log_verifying VerifyExamples.users;
     log_verifying VerifyExamples.order_lines].
Proof.
  destruct (Verify_goes_through_the_tables_in_order
              (VerifyExamples.env
                 [VerifyExamples.users; VerifyExamples.order_lines;
                  VerifyExamples.audit_log]) ["public"] [] []
              [VerifyExamples.users; VerifyExamples.order_lines;
               VerifyExamples.audit_log])
    as (n & _ & Hlogs & _).
  - by repeat split.
  - vm_compute. reflexivity.
Defined.

(** X11.  When the source fails to answer the checksum query of a table,
    [Verify] returns that error with the name of the table and does not
    query the target for it; when the target fails to answer, [Verify]
    returns that error after both queries.  Tables after the failing one
    are not touched. *)
Theorem Verify_stops_at_the_first_scan_failure
    (env : Env) (schemas includeTables excludeTables : list string)
    (pre post : list Table) (table : Table) (cols : list string) :
  selects env schemas includeTables excludeTables (pre ++ table :: post) →
  Forall (passes env) pre →
  (1 ≤ size (PKeyFields table))%nat →
  pkColumns table = Some cols →
  (∀ checksum err,
     source_scan env (checksum_sql table cols) = (checksum, Some err) →
     Verify env schemas includeTables excludeTables =
       ((verify_tables env pre).1 ++
          [log_verifying table; QuerySource (checksum_sql table cols)],
        Returns (Some (err_source_scan table err)))) ∧
  (∀ sourceChecksum checksum err,
     source_scan env (checksum_sql table cols) = (sourceChecksum, None) →
     target_scan env (checksum_sql table cols) = (checksum, Some err) →
     Verify env schemas includeTables excludeTables =
       ((verify_tables env pre).1 ++
          [log_verifying table; QuerySource (checksum_sql table cols);
           QueryTarget (checksum_sql table cols)],
        Returns (Some (err_target_scan table err)))).
Proof.
  intros Hsel Hpre Hsize Hcols. rewrite (Verify_selects _ _ _ _ _ Hsel).
  destruct (verify_tables_app env pre (table :: post) Hpre) as [-> _].
  cbn [verify_tables]. rewrite Hcols. cbn zeta.
  destruct (decide (size (PKeyFields table) < 1)%nat); [lia|].
  split.
  - intros checksum err ->. done.
  - intros s checksum err -> ->. done.
Qed.

Lemma Verify_stops_at_the_first_scan_failure_witness :
  Verify (MoreExamples.env_source_down
            [VerifyExamples.users; VerifyExamples.order_lines])
    ["public"] [] [] =
  ([log_verifying VerifyExamples.users;
    QuerySource (VerifyExamples.sql_of VerifyExamples.users)],
   Returns (Some (err_source_scan VerifyExamples.users "unexpected EOF"))).
Proof.
  destruct (Verify_stops_at_the_first_scan_failure
              (MoreExamples.env_source_down
                 [VerifyExamples.users; VerifyExamples.order_lines])
              ["public"] [] [] [] [VerifyExamples.order_lines]
              VerifyExamples.users
              (default [] (pkColumns VerifyExamples.users)))
    as [Hsource _].
  - by repeat split.
  - constructor.
  - vm_compute. lia.
  - vm_compute. reflexivity.
  - rewrite (Hsource EmptyString "unexpected EOF"%string); reflexivity.
Defined.

(** X12.  [Verify] logs and queries nothing unless both connections, the
    preparation of both databases and the listing of the tables
    succeeded: when one of these five steps fails, [Verify] returns the
    error of the first that failed, the steps before it having succeeded,
    wrapped in the message of that step, and never panics. *)
Theorem Verify_does_nothing_before_its_preamble_succeeded
    (env : Env) (schemas includeTables excludeTables : list string) :
  (∀ tables, ¬ selects env schemas includeTables excludeTables tables) →
  (Verify env schemas includeTables excludeTables).1 = [] ∧
  ∃ pre msg err post,
    [("unable to connect to source database"%string, connect_source env);
     ("unable to prepare source database for Integrity checks"%string,
      prepare_source env);
     ("unable to connect to target database"%string, connect_target env);
     ("unable to prepare target database for Integrity checks"%string,
      prepare_target env);
     ("unable to generate the list of source tables to check"%string,
      (GenerateTablesList env schemas includeTables excludeTables).2)] =
      pre ++ (msg, Some err) :: post ∧
    Forall (λ s, s.2 = None) pre ∧
    (Verify env schemas includeTables excludeTables).2 =
      Returns (Some (wrap msg err)).
Proof.
  intros Hnot. unfold Verify.
  destruct (connect_source env) as [e|] eqn:H1.
  { split; [done|]. eexists [], _, e, _. by repeat split. }
  destruct (prepare_source env) as [e|] eqn:H2.
  { split; [done|]. eexists [_], _, e, _.
    split; [reflexivity|]. split; [|done]. by repeat constructor. }
  destruct (connect_target env) as [e|] eqn:H3.
  { split; [done|]. eexists [_; _], _, e, _.
    split; [reflexivity|]. split; [|done]. by repeat constructor. }
  destruct (prepare_target env) as [e|] eqn:H4.
  { split; [done|]. eexists [_; _; _], _, e, _.
    split; [reflexivity|]. split; [|done]. by repeat constructor. }
  destruct (GenerateTablesList env schemas includeTables excludeTables)
    as [tables [e|]] eqn:H5.
  { split; [done|]. eexists [_; _; _; _], _, e, _.
    split; [reflexivity|]. split; [|done]. by repeat constructor. }
  destruct (Hnot tables). by repeat split.
Qed.

Lemma Verify_does_nothing_before_its_preamble_succeeded_witness :
  Verify MoreExamples.env_unprepared ["public"] [] [] =
    ([], Returns (Some (wrap
                          "unable to prepare target database for Integrity checks"
                          "permission denied for schema public"))).
Proof.
  destruct (Verify_does_nothing_before_its_preamble_succeeded
              MoreExamples.env_unprepared ["public"] [] [])
    as (Htrace & pre & msg & err & post & _ & _ & Hr).
  - intros tables (_ & _ & _ & H4 & _). discriminate H4.
  - reflexivity.
Defined.

End VerifierProperties.

(** ** The setup-db command and the helpers of the integration test *)

Module SetupDBProperties.

Import Connections SetupDB.


End SetupDBProperties.

Module IntegrationTestFacts.

Import IntegrationTest.

(** The loop of [waitForPostgresReady]: [n] failed calls, each followed by
    a sleep of two seconds, and then the call that succeeds, if one does
    within the turns left. *)
Lemma wait_loop_spec (server : Server) (remaining calls : nat) :
  ∃ n,
    (n ≤ remaining)%nat ∧
    (∀ j, (j < n)%nat → connect server (calls + j) ≠ None) ∧
    (if (wait_loop server remaining calls).1
     then (n < remaining)%nat ∧ connect server (calls + n) = None
     else n = remaining) ∧
    slept (wait_loop server remaining calls).2 = 2 * Z.of_nat n ∧
    connects (wait_loop server remaining calls).2 =
      (n + if (wait_loop server remaining calls).1 then 1 else 0)%nat ∧
    opened (wait_loop server remaining calls).2 =
      (if (wait_loop server remaining calls).1 then 1 else 0)%nat ∧
    closed (wait_loop server remaining calls).2 =
      (if (wait_loop server remaining calls).1 then 1 else 0)%nat ∧
    executed (wait_loop server remaining calls).2 = [].
Proof.
  revert calls. induction remaining as [|remaining IH]; intros calls.
  - exists 0%nat. cbn. repeat split; try done. intros j Hj. lia.
  - cbn [wait_loop]. destruct (connect server calls) as [err|] eqn:Hc.
    + destruct (IH (S calls)) as (n & Hn & Hfail & Hlast & Hs & Hcs & Ho & Hcl & He).
      exists (S n). cbn [fst snd]. split; [lia|]. split.
      { intros [|j] Hj.
        - rewrite Nat.add_0_r, Hc. done.
        - replace (calls + S j)%nat with (S calls + j)%nat by lia.
          apply Hfail. lia. }
      split.
      { destruct (wait_loop server remaining (S calls)).1.
        - destruct Hlast as [Hlt Hok]. split; [lia|].
          by replace (calls + S n)%nat with (S calls + n)%nat by lia.
        - lia. }
      change (slept (Connect (Some err) :: Sleep 2 :: ?l)) with (2 + slept l).
      change (connects (Connect (Some err) :: Sleep 2 :: ?l))
        with (S (connects l)).
      change (opened (Connect (Some err) :: Sleep 2 :: ?l)) with (opened l).
      change (closed (Connect (Some err) :: Sleep 2 :: ?l)) with (closed l).
      change (executed (Connect (Some err) :: Sleep 2 :: ?l))
        with (executed l).
      rewrite Hs, Hcs. split; [lia|]. split; [lia|]. done.
    + exists 0%nat. cbn [fst snd]. split; [lia|]. split; [intros j Hj; lia|].
      split; [split; [lia|by rewrite Nat.add_0_r]|]. by cbn.
Qed.

(** The statements executed are those before the first that fails, and
    that one. *)
Lemma install_spec (server : Server) (statements : list string) :
  ∃ n,
    (n ≤ length statements)%nat ∧
    executed (install server statements).1 = take n statements ∧
    (install server statements).1 = Exec <$> take n statements ∧
    ((install server statements).2 = None ↔
       Forall (λ s, exec server s = None) statements) ∧
    ((install server statements).2 = None → n = length statements) ∧
    (∀ e, (install server statements).2 = Some e →
       ∃ s err, statements !! pred n = Some s ∧ (0 < n)%nat ∧
                exec server s = Some err ∧
                e = ("test schema installation failed: " +:+ err)%string).
Proof.
  induction statements as [|s statements (n & Hn & He & Ht & Hiff & Hall & Herr)].
  - exists 0%nat. cbn. repeat split; done.
  - cbn [install]. destruct (exec server s) as [err|] eqn:Hs.
    + exists 1%nat. cbn [fst snd]. split; [simpl; lia|].
      change (take 1 (s :: statements)) with (s :: take 0 statements).
      rewrite take_0. split; [done|]. split; [done|]. split.
      { split; [done|]. intros Hf. apply Forall_cons in Hf as [Hf _].
        congruence. }
      split; [done|]. intros e [= <-]. exists s, err.
      split; [done|]. split; [lia|done].
    + exists (S n). cbn [fst snd]. split; [simpl; lia|].
      change (take (S n) (s :: statements)) with (s :: take n statements).
      split; [cbn; by rewrite <- He|]. split; [cbn; by rewrite Ht|]. split.
      { rewrite Hiff. split; [by constructor|].
        by intros [_ ?]%Forall_cons. }
      split; [intros Hr; simpl; by rewrite (Hall Hr)|].
      intros e Hr. destruct (Herr e Hr) as (s' & err & Hl & Hpos & Hx & ->).
      exists s', err. split; [destruct n; [lia|exact Hl]|].
      split; [lia|done].
Qed.

(** The loop stops at the first statement that fails. *)
Lemma install_stops (server : Server) (statements : list string) :
  (Forall (λ s, exec server s = None) statements ∧
   install server statements = (Exec <$> statements, None)) ∨
  (∃ pre s err post,
     statements = pre ++ s :: post ∧
     Forall (λ s, exec server s = None) pre ∧
     exec server s = Some err ∧
     install server statements =
       (Exec <$> (pre ++ [s]),
        Some ("test schema installation failed: " +:+ err)%string)).
Proof.
  induction statements as [|s statements IH].
  - left. by split.
  - cbn [install]. destruct (exec server s) as [err|] eqn:Hs.
    + right. exists [], s, err, statements. by repeat split.
    + destruct IH as [[Hall ->]|(pre & s' & err & post & -> & Hpre & Hx & ->)].
      * left. split; [by constructor|done].
      * right. exists (s :: pre), s', err, post.
        split; [done|]. split; [by constructor|]. by split.
Qed.

Lemma opened_app (l1 l2 : list action) :
  opened (l1 ++ l2) = (opened l1 + opened l2)%nat.
Proof. unfold opened. by rewrite filter_app, length_app. Qed.

Lemma closed_app (l1 l2 : list action) :
  closed (l1 ++ l2) = (closed l1 + closed l2)%nat.
Proof. unfold closed. by rewrite filter_app, length_app. Qed.

Lemma executed_app (l1 l2 : list action) :
  executed (l1 ++ l2) = executed l1 ++ executed l2.
Proof. unfold executed. by rewrite omap_app. Qed.

Lemma Exec_counts (l : list string) :
  opened (Exec <$> l) = 0%nat ∧ closed (Exec <$> l) = 0%nat ∧
  executed (Exec <$> l) = l.
Proof.
  induction l as [|s l (Ho & Hc & He)]; [done|].
  split; [exact Ho|]. split; [exact Hc|].
  change (executed (Exec <$> s :: l)) with (s :: executed (Exec <$> l)).
  by rewrite He.
Qed.

End IntegrationTestFacts.

Module IntegrationTestProperties.

Import IntegrationTest IntegrationTestFacts.

(** X14.  [waitForPostgresReady] calls [pgx.Connect] until a call
    succeeds, at most thirty times, and sleeps two seconds after every
    call that failed, also after the thirtieth: it returns true exactly
    when one of the thirty calls succeeds, having slept two seconds for
    each call before the first success, and false after sixty seconds
    otherwise.  The connection of the call that succeeded is closed; none
    is left open. *)
Theorem waitForPostgresReady_gives_up_after_thirty_calls
    (server : Server) (calls : nat) :
  let ready := waitForPostgresReady server calls in
  (ready.1 = true ↔
     ∃ i, (i < 30)%nat ∧ connect server (calls + i) = None) ∧
  ∃ n,
    (n ≤ 30)%nat ∧
    (∀ j, (j < n)%nat → connect server (calls + j) ≠ None) ∧
    (if ready.1
     then (n < 30)%nat ∧ connect server (calls + n) = None
     else n = 30%nat) ∧
    slept ready.2 = 2 * Z.of_nat n ∧
    connects ready.2 = (n + if ready.1 then 1 else 0)%nat ∧
    opened ready.2 = closed ready.2 ∧
    executed ready.2 = [].
Proof.
  intros ready. unfold ready, waitForPostgresReady.
  destruct (wait_loop_spec server 30 calls)
    as (n & Hn & Hfail & Hlast & Hs & Hc & Ho & Hcl & He).
  split.
  - destruct (wait_loop server 30 calls).1.
    + split; [|done]. intros _. exists n. by destruct Hlast.
    + split; [done|]. intros (i & Hi & Hok). subst n.
      by destruct (Hfail i Hi).
  - exists n. rewrite Ho, Hcl. by repeat split.
Qed.

(** X15.  [setupTestSchema] executes the statements of [testSchema] in
    their order and stops at the first that fails: the statements it
    executed are those before the failing one, which succeeded, and the
    failing one, and it returns the error of that one as a failed
    installation.  It executes nothing when the database did not become
    ready within the thirty calls or when its own connection cannot be
    made, and returns the error of that.  It returns nil exactly when the
    database became ready, the connection was made and the three
    statements succeeded, all three then executed; and every connection
    it opened is closed when it returns, whatever it returns. *)
Theorem setupTestSchema_installs_in_order_and_closes
    (server : Server) (calls : nat) :
  let ready := waitForPostgresReady server calls in
  let setup := setupTestSchema server calls in
  opened setup.1 = closed setup.1 ∧
  (ready.1 = false →
     setup = (ready.2,
              Some "database did not become ready in allowed time"%string) ∧
     executed setup.1 = []) ∧
  (∀ err,
     ready.1 = true →
     connect server (calls + connects ready.2) = Some err →
     setup = (ready.2 ++ [Connect (Some err)], Some err) ∧
     executed setup.1 = []) ∧
  (ready.1 = true →
   connect server (calls + connects ready.2) = None →
     (Forall (λ s, exec server s = None) testSchema ∧
      executed setup.1 = testSchema ∧ setup.2 = None) ∨
     (∃ pre s err post,
        testSchema = pre ++ s :: post ∧
        Forall (λ s, exec server s = None) pre ∧
        exec server s = Some err ∧
        executed setup.1 = pre ++ [s] ∧
        setup.2 =
          Some ("test schema installation failed: " +:+ err)%string)) ∧
  (setup.2 = None ↔
     ready.1 = true ∧
     connect server (calls + connects ready.2) = None ∧
     Forall (λ s, exec server s = None) testSchema).
Proof.
  intros ready setup. unfold setup, setupTestSchema. fold ready.
  assert (Hready : opened ready.2 = closed ready.2 ∧ executed ready.2 = []).
  { unfold ready, waitForPostgresReady.
    destruct (wait_loop_spec server 30 calls)
      as (n & _ & _ & _ & _ & _ & -> & -> & ->). done. }
  destruct Hready as [Hbal Hnone].
  destruct ready.1; cbn [negb].
  - destruct (connect server (calls + connects ready.2)) as [err|] eqn:Hc.
    + cbn [fst snd]. split; [|split; [|split; [|split]]].
      * rewrite opened_app, closed_app, Hbal. done.
      * done.
      * intros e _ [= <-]. split; [done|].
        by rewrite executed_app, Hnone.
      * done.
      * split; [done|]. by intros (_ & ? & _).
    + destruct (install_spec server testSchema)
        as (k & Hk & He & Ht & Hiff & Hall & _).
      cbn [fst snd]. split; [|split; [|split; [|split]]].
      * rewrite !opened_app, !closed_app, Hbal, Ht.
        destruct (Exec_counts (take k testSchema)) as (-> & -> & _). done.
      * done.
      * done.
      * intros _ _. rewrite !executed_app, Hnone. cbn [executed omap app].
        destruct (install_stops server testSchema)
          as [[Hok ->]|(pre & s & err & post & Hsplit & Hpre & Hx & ->)];
          cbn [fst snd].
        -- left. split; [done|].
           destruct (Exec_counts testSchema) as (_ & _ & ->).
           by rewrite app_nil_r.
        -- right. exists pre, s, err, post. split; [done|].
           split; [done|]. split; [done|]. split; [|done].
           destruct (Exec_counts (pre ++ [s])) as (_ & _ & ->).
           by rewrite app_nil_r.
      * rewrite Hiff. split; [by intros ?|by intros (_ & _ & ?)].
  - cbn [fst snd]. split; [exact Hbal|]. split; [|split; [|split]].
    + done.
    + done.
    + done.
    + split; [done|]. by intros [? _].
Qed.

End IntegrationTestProperties.

Module TestWorkerFacts.

Import IntegrationTest TestWorkers.

Lemma insert_rows_spec (session : Session) (name : string) (rows calls : nat) :
  ∃ k,
    (∀ j, (j < k)%nat → session_exec session (calls + j) = None) ∧
    if (insert_rows session name rows calls).2
    then (k < rows)%nat ∧
         ∃ err, session_exec session (calls + k) = Some err ∧
                (insert_rows session name rows calls).1 =
                  inserts name k (Some err)
    else k = rows ∧ (insert_rows session name rows calls).1 = inserts name k None.
Proof.
  revert calls. induction rows as [|rows IH]; intros calls.
  - exists 0%nat. split; [intros j Hj; lia|done].
  - cbn [insert_rows].
    destruct (session_exec session calls) as [err|] eqn:Hx.
    + exists 0%nat. split; [intros j Hj; lia|]. cbn [fst snd].
      split; [lia|]. exists err. by rewrite Nat.add_0_r.
    + destruct (IH (S calls)) as (k & Hok & Hlast). exists (S k).
      cbn [fst snd]. split.
      { intros [|j] Hj; [by rewrite Nat.add_0_r|].
        replace (calls + S j)%nat with (S calls + j)%nat by lia.
        apply Hok. lia. }
      destruct (insert_rows session name rows (S calls)).2;
        lazy beta iota in Hlast.
      * destruct Hlast as (Hlt & err & Herr & ->). split; [lia|].
        exists err. split; [|done].
        by replace (calls + S k)%nat with (S calls + k)%nat by lia.
      * destruct Hlast as [-> ->]. done.
Qed.

Lemma insert_batches_spec (session : Session) (name : string)
    (batches calls : nat) :
  ∃ k,
    (∀ j, (j < k)%nat → session_exec session (calls + j) = None) ∧
    if (insert_batches session name batches calls).2
    then (k < batches * testRows_length)%nat ∧
         ∃ err, session_exec session (calls + k) = Some err ∧
                (insert_batches session name batches calls).1 =
                  inserts name k (Some err)
    else k = (batches * testRows_length)%nat ∧
         (insert_batches session name batches calls).1 = inserts name k None.
Proof.
  revert calls. induction batches as [|batches IH]; intros calls.
  - exists 0%nat. split; [intros j Hj; lia|done].
  - cbn [insert_batches].
    destruct (insert_rows_spec session name testRows_length calls)
      as (k & Hok & Hlast).
    destruct (insert_rows session name testRows_length calls) as [batch [|]];
      cbn [fst snd] in *.
    + exists k. split; [exact Hok|].
      destruct Hlast as (Hlt & err & Herr & Ht). split; [lia|].
      by exists err.
    + destruct Hlast as [-> Ht].
      destruct (IH (calls + testRows_length)%nat) as (k & Hok' & Hlast).
      exists (testRows_length + k)%nat. split.
      { intros j Hj.
        destruct (decide (j < testRows_length)%nat) as [Hlt|Hge];
          [by apply Hok|].
        replace (calls + j)%nat
          with (calls + testRows_length + (j - testRows_length))%nat by lia.
        apply Hok'. lia. }
      rewrite Ht.
      destruct (insert_batches session name batches
                  (calls + testRows_length)) as [rest [|]];
        cbn [fst snd] in *.
      * destruct Hlast as (Hlt & err & Herr & ->). split; [lia|].
        exists err. split; [by rewrite Nat.add_assoc|].
        unfold inserts. rewrite app_assoc, <- replicate_add. done.
      * destruct Hlast as [-> ->]. split; [lia|].
        unfold inserts. by rewrite <- replicate_add.
Qed.

Lemma inserts_counts (name : string) (k : nat) (failure : option Error) :
  opened (inserts name k failure) = 0%nat ∧
  closed (inserts name k failure) = 0%nat ∧
  filter (λ a, is_done a) (inserts name k failure) = [] ∧
  length (filter (λ a, is_fatal a) (inserts name k failure)) =
    match failure with Some _ => 1%nat | None => 0%nat end.
Proof.
  assert (Hrep : ∀ n,
            opened (replicate n (Exec insertSQL)) = 0%nat ∧
            closed (replicate n (Exec insertSQL)) = 0%nat ∧
            filter (λ a, is_done a) (replicate n (Exec insertSQL)) = [] ∧
            filter (λ a, is_fatal a) (replicate n (Exec insertSQL)) = []).
  { induction n as [|n IH]; [done|]. exact IH. }
  unfold inserts. destruct failure as [err|].
  - destruct (Hrep (S k)) as (Ho & Hc & Hd & Hf).
    unfold opened, closed in *. rewrite !filter_app, !length_app.
    rewrite Hd, Hf. split; [by rewrite Ho|]. split; [by rewrite Hc|]. done.
  - destruct (Hrep k) as (Ho & Hc & Hd & Hf). by rewrite Hf.
Qed.

End TestWorkerFacts.

Module TestWorkerProperties.

Import IntegrationTest IntegrationTestFacts TestWorkers TestWorkerFacts.

(** X16.  Once connected, [insertTestData] executes the insert statement
    call after call, three rows for each of fifty turns, until a call
    fails: when none fails it executes 150 inserts and then closes the
    connection; when the call number [k] is the first to fail it has
    executed [k+1] inserts, reports the error with [t.Fatalf] and stops,
    the deferred calls still closing the connection and releasing the
    wait group. *)
Theorem insertTestData_inserts_until_the_first_failure
    (session : Session) (name : string) :
  session_connect session = None →
  ∃ k,
    (k ≤ 150)%nat ∧
    (∀ j, (j < k)%nat → session_exec session j = None) ∧
    ((k = 150%nat ∧
      insertTestData session name =
        [Connect None] ++ replicate 150 (Exec insertSQL) ++ [Close; Done]) ∨
     (k < 150)%nat ∧
     ∃ err,
       session_exec session k = Some err ∧
       insertTestData session name =
         [Connect None] ++ replicate (S k) (Exec insertSQL)
           ++ [Fatalf (name +:+ ": Could not insert row in source database: "
                         +:+ err); Close; Done]).
Proof.
  intros Hc. unfold insertTestData. rewrite Hc.
  destruct (insert_batches_spec session name nRows 0) as (k & Hok & Hlast).
  exists k.
  destruct (insert_batches session name nRows 0) as [tr [|]];
    cbn [fst snd] in *.
  - destruct Hlast as (Hlt & err & Herr & ->).
    change (nRows * testRows_length)%nat with 150%nat in Hlt.
    split; [lia|]. split; [exact Hok|]. right. split; [exact Hlt|].
    exists err. split; [exact Herr|]. unfold inserts.
    by rewrite <- !app_assoc.
  - destruct Hlast as [-> ->].
    change (nRows * testRows_length)%nat with 150%nat.
    split; [lia|]. split; [exact Hok|]. left. done.
Qed.

Lemma insertTestData_inserts_until_the_first_failure_witness :
  insertTestData WorkerExamples.fifth_fails "TestVersionMigration" =
    [Connect None] ++ replicate 5 (Exec insertSQL)
      ++ [Fatalf ("TestVersionMigration: Could not insert row in source database: deadlock detected");
          Close; Done].
Proof.
  destruct (insertTestData_inserts_until_the_first_failure
              WorkerExamples.fifth_fails "TestVersionMigration")
    as (k & _ & Hok & [[-> _]|(_ & err & Herr & Ht)]).
  - reflexivity.
  - specialize (Hok 4%nat ltac:(lia)). discriminate Hok.
  - reflexivity.
Defined.

(** X17.  Each of the three workers ([insertTestData], [updateTestData],
    [deleteTestData]) releases the wait group exactly once, as its last
    action, whether it connected, failed to connect or was ended by
    [t.Fatalf]; it closes the connection exactly when it had opened one;
    and it reports at most one fatal error. *)
Theorem workers_release_the_wait_group_and_the_connection
    (session : Session) (name : string) :
  Forall (λ worker : Session → string → list action,
            ∃ body,
              worker session name = body ++ [Done] ∧
              filter (λ a, is_done a) body = [] ∧
              opened (worker session name) = closed (worker session name) ∧
              opened (worker session name) =
                (if session_connect session is None then 1 else 0)%nat ∧
              (length (filter (λ a, is_fatal a) (worker session name)) ≤ 1)%nat)
    [insertTestData; updateTestData; deleteTestData].
Proof.
  repeat apply List.Forall_cons; [| | |constructor].
  - unfold insertTestData. destruct (session_connect session) as [err|].
    + eexists [_; _]. by repeat split.
    + destruct (insert_batches_spec session name nRows 0) as (k & _ & Hlast).
      destruct (insert_batches session name nRows 0) as [tr b].
      cbn [fst snd] in *.
      assert (∃ failure, tr = inserts name k failure) as [failure ->].
      { destruct b; [destruct Hlast as (_ & err & _ & ->)|destruct Hlast as [_ ->]];
          by eexists. }
      destruct (inserts_counts name k failure) as (Ho & Hcl & Hd & Hf).
      exists ([Connect None] ++ inserts name k failure ++ [Close]).
      split; [by rewrite <- !app_assoc|]. split.
      { rewrite !filter_app, Hd. done. }
      split; [|split].
      * rewrite !opened_app, !closed_app, Ho, Hcl. done.
      * rewrite !opened_app, Ho. done.
      * rewrite !filter_app, !length_app, Hf.
        change (length (filter (λ a, is_fatal a) [Connect None])) with 0%nat.
        change (length (filter (λ a, is_fatal a) [Close; Done])) with 0%nat.
        destruct failure; lia.
  - unfold updateTestData. destruct (session_connect session) as [err|].
    + eexists [_; _]. by repeat split.
    + destruct (session_exec session 0) as [err|].
      * eexists [_; _; _; _]. by repeat split.
      * eexists [_; _; _]. repeat split; try done. apply (Nat.le_0_l 1).
  - unfold deleteTestData. destruct (session_connect session) as [err|].
    + eexists [_; _]. by repeat split.
    + destruct (session_exec session 0) as [err|].
      * eexists [_; _; _; _]. by repeat split.
      * eexists [_; _; _]. repeat split; try done. apply (Nat.le_0_l 1).
Qed.

End TestWorkerProperties.

Module ContainerProperties.

Import Connections ConnectionFacts Containers.

(** X18.  [createDatabaseContainer] returns a container exactly when the
    docker client, the free port and the start of the container all
    succeed; it then returns the id of the container and the port that
    [getFreePort] found, after the listener that found it was closed, the
    container having been started from the image ["postgres:" + version]
    with that port, written in decimal, mapped to the container port
    5432, and the removal of the container is registered.  On any failure
    it returns the empty id and port 0 and registers nothing; a failure of
    [getFreePort] is reported as ["could not determine a free port"],
    whatever its cause. *)
Theorem createDatabaseContainer_maps_the_free_port
    (e : Env) (version database username password : string) :
  let created := createDatabaseContainer e version database username password in
  let config := containerConfig version database username password in
  (∀ port containerID,
     NewDockerClient e = None → ResolveTCPAddr e = None →
     net_ListenTCP e = inl port →
     runContainer e (config port) = inl containerID →
     created =
       ([ListenTCP; CloseListener; RunContainer (config port);
         Cleanup containerID],
        (containerID, port, None))) ∧
  (created.2.2 = None →
     ∃ port containerID,
       NewDockerClient e = None ∧ ResolveTCPAddr e = None ∧
       net_ListenTCP e = inl port ∧
       runContainer e (config port) = inl containerID ∧
       created.2.1 = (containerID, port)) ∧
  (created.2.2 ≠ None →
     created.2.1 = (EmptyString, 0) ∧ ∀ id, Cleanup id ∉ created.1) ∧
  (NewDockerClient e = None →
   (getFreePort e).2.2 ≠ None →
     created = ([], (EmptyString, 0,
                     Some "could not determine a free port"%string))) ∧
  (∀ c, RunContainer c ∈ created.1 →
     ∃ port,
       net_ListenTCP e = inl port ∧ c = config port ∧
       image c = ("postgres:" +:+ version)%string ∧
       (∀ m, m ∈ ports c →
          Z.of_int <$> DecimalString.NilZero.int_of_string (HostPort m)
            = Some port ∧
          Z.of_int <$> DecimalString.NilZero.int_of_string (ContainerPort m)
            = Some 5432)).
Proof.
  intros created config. unfold created, createDatabaseContainer, getFreePort.
  fold config.
  assert (Hports : ∀ port m, m ∈ ports (config port) →
            Z.of_int <$> DecimalString.NilZero.int_of_string (HostPort m)
              = Some port ∧
            Z.of_int <$> DecimalString.NilZero.int_of_string (ContainerPort m)
              = Some 5432).
  { intros port m Hm. apply list_elem_of_singleton in Hm as ->.
    cbn [HostPort ContainerPort]. split; apply fmt_d_read. }
  destruct (NewDockerClient e) as [e0|].
  { split; [done|]. split; [done|]. split.
    - intros _. split; [done|]. intros id Hel. by apply elem_of_nil in Hel.
    - split; [done|]. intros c Hel. by apply elem_of_nil in Hel. }
  destruct (ResolveTCPAddr e) as [e1|]; cbn [fst snd].
  { split; [done|]. split; [done|]. split.
    - intros _. split; [done|]. intros id Hel. by apply elem_of_nil in Hel.
    - split; [done|]. intros c Hel. by apply elem_of_nil in Hel. }
  destruct (net_ListenTCP e) as [port|e2]; cbn [fst snd].
  2:{ split; [done|]. split; [done|]. split.
      - intros _. split; [done|]. intros id Hel. by apply elem_of_nil in Hel.
      - split; [done|]. intros c Hel. by apply elem_of_nil in Hel. }
  destruct (runContainer e (config port)) as [id|e3] eqn:Hrun; cbn [fst snd app].
  - split.
    { intros port' id' _ _ [= <-] Hrun'. rewrite Hrun in Hrun'.
      by injection Hrun' as <-. }
    split; [intros _; by exists port, id|]. split; [done|]. split; [done|].
    intros c Hel. rewrite !elem_of_cons, elem_of_nil in Hel.
    destruct Hel as [?|[?|[Hel|[?|[]]]]]; try done.
    injection Hel as ->. exists port. split; [done|]. split; [done|].
    split; [done|]. apply Hports.
  - split.
    { intros port' id' _ _ [= <-] Hrun'. rewrite Hrun in Hrun'. done. }
    split; [done|]. split.
    { intros _. split; [done|]. intros id Hel.
      rewrite !elem_of_cons, elem_of_nil in Hel.
      destruct Hel as [?|[?|[?|[]]]]; done. }
    split; [done|].
    intros c Hel. rewrite !elem_of_cons, elem_of_nil in Hel.
    destruct Hel as [?|[?|[Hel|[]]]]; try done.
    injection Hel as ->. exists port. split; [done|]. split; [done|].
    split; [done|]. apply Hports.
Qed.

End ContainerProperties.
